(** * grf: ProbabilityPredictionStrategy

    A shallow embedding of
    [core/src/prediction/ProbabilityPredictionStrategy.cpp] and theorems
    about it.  C++ [double] is IEEE 754 binary64, modelled with the
    executable specification [SpecFloat] (53 bits of precision, round to
    nearest even); [size_t] indices are natural numbers; the calls that
    can throw ([std::vector::at]) or have no defined behaviour (integer
    division by zero, [operator[]] past the end) return a [result]. *)

From Stdlib Require Import ZArith SpecFloat.
From stdpp Require Import base list.

(** ** binary64 arithmetic *)

Module Double.

Definition prec : Z := 53.
Definition emax : Z := 1024.

Definition double : Type := spec_float.

Definition zero : double := S754_zero false.
Definition nan : double := S754_nan.

Definition add : double -> double -> double := SFadd prec emax.
Definition sub : double -> double -> double := SFsub prec emax.
Definition mul : double -> double -> double := SFmul prec emax.
Definition div : double -> double -> double := SFdiv prec emax.
Definition fabs : double -> double := SFabs.
Definition leb : double -> double -> bool := SFleb.
Definition ltb : double -> double -> bool := SFltb.

(** An integer converted to [double], correctly rounded. *)
Definition of_Z (z : Z) : double := binary_normalize prec emax z 0 false.

(** The implicit conversion of a [size_t] operand to [double]. *)
Definition of_size_t (n : nat) : double := of_Z (Z.of_nat n).

Definition one : double := of_Z 1.

(** The decimal literal [num / den]: both integers are exactly
    representable where this is used, so the correctly rounded quotient
    is the [double] nearest to the decimal, which is what the literal
    denotes. *)
Definition decimal (num den : Z) : double := div (of_Z num) (of_Z den).

(** The literal [1e-16]. *)
Definition tiny : double := decimal 1 (10 ^ 16).

Definition is_nan (x : double) : bool :=
  match x with S754_nan => true | _ => false end.

(** [0 <= x]; false on NaN. *)
Definition nonneg (x : double) : bool := leb zero x.

End Double.

Import Double.

Declare Scope double_scope.
Delimit Scope double_scope with double.
Infix "+" := add : double_scope.
Infix "-" := sub : double_scope.
Infix "*" := mul : double_scope.
Infix "/" := div : double_scope.

(** ** Exceptions and undefined behaviour *)

Inductive fault : Type :=
| out_of_range          (* thrown by [std::vector::at] *)
| undefined_behaviour.  (* [x / 0] on [size_t], [v[i]] with [i >= v.size()] *)

Inductive result (A : Type) : Type :=
| Ok (a : A)
| Raise (f : fault).

Arguments Ok {A} a.
Arguments Raise {A} f.

#[global] Instance result_ret : MRet result := @Ok.

#[global] Instance result_bind : MBind result :=
  fun A B (k : A -> result B) (m : result A) =>
    match m with
    | Ok a => k a
    | Raise f => Raise f
    end.

(** [v.at(i)] *)
Definition at_ {A : Type} (v : list A) (i : nat) : result A :=
  match v !! i with
  | Some a => Ok a
  | None => Raise out_of_range
  end.

(** [for (x : xs) body], with the loop state threaded through. *)
Fixpoint for_each {A S : Type} (xs : list A) (body : A -> S -> result S)
    (s : S) : result S :=
  match xs with
  | [] => Ok s
  | x :: rest => s' ← body x s; for_each rest body s'
  end.

(** [for (size_t i = 0; i < n; ++i) body] *)
Definition for_range {S : Type} (n : nat) (body : nat -> S -> result S)
    (s : S) : result S :=
  for_each (seq 0 n) body s.

(** A loop that stores [f i] at index [i]. *)
Definition store_loop {A : Type} (f : nat -> result A) (n : nat)
    (v0 : list A) : result (list A) :=
  for_range n (fun i v => x ← f i; Ok (<[i := x]> v)) v0.

(** ** Collaborators *)

(** Modelled from the spec: the class [PredictionValues] (the
    PerLeafValueTable) is declared outside this file.  It is constructed
    from the sequence of per-leaf vectors and the number of value types,
    and exposes [get_num_nodes], [empty] and [get]; a leaf is flagged empty
    by storing no vector for it, so [empty] tests the stored vector. *)
Record PredictionValues : Type := mkPredictionValues {
  values : list (list double);
  num_types : nat
}.

Definition get_num_nodes (pv : PredictionValues) : nat :=
  length (values pv).

Definition empty (pv : PredictionValues) (node : nat) : result bool :=
  v ← at_ (values pv) node;
  Ok (match v with [] => true | _ => false end).

Definition get (pv : PredictionValues) (node type : nat) : result double :=
  v ← at_ (values pv) node;
  at_ v type.

(** Modelled from the spec: the data accessor [Data], declared outside
    this file, gives each sample index a class label and a weight. *)
Record Data : Type := mkData {
  get_outcome : nat -> nat;
  get_weight : nat -> double
}.

(** A call made to the data accessor. *)
Inductive query : Type :=
| QOutcome (sample : nat)
| QWeight (sample : nat).

(** ** The strategy *)

Section Strategy.

Variable num_classes : nat.

(** [bayes_debiaser.debias], an opaque collaborator. *)
Variable debias : double -> double -> double -> double.

Definition prediction_length : nat := num_classes.

Definition predict (average : list double) : list double := average.

Definition prediction_value_length : nat := num_classes.

(** *** compute_variance *)

Section ComputeVariance.

Variable average : list double.
Variable leaf_values : PredictionValues.
Variable ci_group_size : nat.

(** Lines 48-53: is every leaf of [group] non-empty? *)
Definition good_group (group : nat) : result bool :=
  for_range ci_group_size
    (fun j good =>
       e ← empty leaf_values (group * ci_group_size + j);
       Ok (if e : bool then false else good))
    true.

(** Lines 60-66: the state is [(psi_squared, group_psi)]. *)
Definition sum_group (cls : nat) (average_outcome : double) (group : nat)
    (st : double * double) : result (double * double) :=
  for_range ci_group_size
    (fun j '(psi_squared, group_psi) =>
       let i := group * ci_group_size + j in
       v ← get leaf_values i cls;
       let psi_1 := (v - average_outcome)%double in
       Ok ((psi_squared + psi_1 * psi_1)%double,
           (group_psi + psi_1)%double))
    st.

(** The accumulators of one class. *)
Record accumulators : Type := mkAcc {
  num_good_groups : double;
  psi_squared : double;
  psi_grouped_squared : double
}.

Definition acc0 : accumulators := mkAcc zero zero zero.

(** Lines 48-69: the body of the loop over groups. *)
Definition group_body (cls : nat) (average_outcome : double)
    (group : nat) (acc : accumulators) : result accumulators :=
  good ← good_group group;
  if negb good then Ok acc
  else
    let n := (num_good_groups acc + one)%double in
    '(ps, group_psi) ←
      sum_group cls average_outcome group (psi_squared acc, zero);
    let group_psi := (group_psi / of_size_t ci_group_size)%double in
    Ok (mkAcc n ps
          (psi_grouped_squared acc + group_psi * group_psi)%double).

(** Lines 47-70.  The bound [get_num_nodes() / ci_group_size] is a
    [size_t] division, undefined when [ci_group_size] is 0. *)
Definition group_loop (cls : nat) (average_outcome : double)
    : result accumulators :=
  if Nat.eqb ci_group_size 0 then Raise undefined_behaviour
  else
    for_range (get_num_nodes leaf_values / ci_group_size)
      (group_body cls average_outcome) acc0.

(** Lines 72-76: [(var_between, var_total, group_noise)].
    [ci_group_size - 1] is a [size_t] subtraction; it cannot wrap here
    because [group_loop] has already divided by [ci_group_size]. *)
Definition variance_terms (acc : accumulators)
    : double * double * double :=
  let var_between :=
    (psi_grouped_squared acc / num_good_groups acc)%double in
  let var_total :=
    (psi_squared acc
     / (num_good_groups acc * of_size_t ci_group_size))%double in
  let group_noise :=
    ((var_total - var_between) / of_size_t (ci_group_size - 1))%double in
  (var_between, var_total, group_noise).

(** Lines 41-82: the variance estimate of class [cls]. *)
Definition class_variance (cls : nat) : result double :=
  average_outcome ← at_ average cls;
  acc ← group_loop cls average_outcome;
  let '(var_between, _, group_noise) := variance_terms acc in
  Ok (debias var_between group_noise (num_good_groups acc)).

Definition compute_variance : result (list double) :=
  for_range num_classes
    (fun cls variance_estimates =>
       var_debiased ← class_variance cls;
       Ok (<[cls := var_debiased]> variance_estimates))
    (replicate num_classes zero).

End ComputeVariance.

(** *** precompute_prediction_values *)

(** [v.resize(n)]: the first [n] elements of [v], then zeros. *)
Definition resize (v : list double) (n : nat) : list double :=
  take n v ++ replicate (n - length v) zero.

(** Lines 108-112: the state is the vector [averages], [weight_sum] and
    the calls made to [data] so far.  [averages[sample_class]] has no
    defined behaviour past the end of the vector. *)
Definition accumulate (data : Data) (leaf_node : list nat)
    (st : list double * double * list query)
    : result (list double * double * list query) :=
  for_each leaf_node
    (fun sample '(averages, weight_sum, log) =>
       let sample_class := get_outcome data sample in
       match averages !! sample_class with
       | None => Raise undefined_behaviour
       | Some a =>
           Ok (<[sample_class := (a + get_weight data sample)%double]>
                 averages,
               (weight_sum + get_weight data sample)%double,
               log ++ [QOutcome sample; QWeight sample; QWeight sample])
       end)
    st.

(** Lines 119-121. *)
Definition normalize (weight_sum : double) (averages : list double)
    : result (list double) :=
  for_range num_classes
    (fun cls averages =>
       match averages !! cls with
       | None => Raise undefined_behaviour
       | Some a => Ok (<[cls := (a / weight_sum)%double]> averages)
       end)
    averages.

(** Lines 100-121: the body of the loop over leaves.  The state is the
    vector [values] and the calls made to [data] so far; [averages] is a
    reference to [values[i]], so what is done to it is written back. *)
Definition leaf_body (leaf_samples : list (list nat)) (data : Data)
    (i : nat) (st : list (list double) * list query)
    : result (list (list double) * list query) :=
  let '(values, log) := st in
  leaf_node ← at_ leaf_samples i;
  match leaf_node with
  | [] => Ok (values, log)
  | _ =>
      match values !! i with
      | None => Raise undefined_behaviour
      | Some averages =>
          let averages := resize averages num_classes in
          '(averages, weight_sum, log) ←
            accumulate data leaf_node (averages, zero, log);
          if leb (fabs weight_sum) tiny
          then Ok (<[i := averages]> values, log)
          else
            averages ← normalize weight_sum averages;
            Ok (<[i := averages]> values, log)
      end
  end.

(** Lines 96-124, returning the table and every call made to [data]. *)
Definition precompute_prediction_values_log
    (leaf_samples : list (list nat)) (data : Data)
    : result (PredictionValues * list query) :=
  let num_leaves := length leaf_samples in
  '(values, log) ←
    for_range num_leaves (leaf_body leaf_samples data)
      (replicate num_leaves [], []);
  Ok (mkPredictionValues values num_classes, log).

Definition precompute_prediction_values
    (leaf_samples : list (list nat)) (data : Data)
    : result PredictionValues :=
  '(pv, _) ← precompute_prediction_values_log leaf_samples data;
  Ok pv.

(** What one iteration of the loop over leaves leaves in [values[i]],
    which holds the empty vector before it, and the calls it makes to
    [data]. *)
Definition leaf_entry (data : Data) (leaf_node : list nat)
    : result (list double * list query) :=
  match leaf_node with
  | [] => Ok ([], [])
  | _ =>
      '(averages, weight_sum, log) ←
        accumulate data leaf_node (replicate num_classes zero, zero, []);
      if leb (fabs weight_sum) tiny then Ok (averages, log)
      else
        averages ← normalize weight_sum averages;
        Ok (averages, log)
  end.

(** *** compute_error *)

Definition compute_error (sample : nat) (average : list double)
    (leaf_values : PredictionValues) (data : Data)
    : list (double * double) :=
  [(nan, nan)].

End Strategy.

(** ** Groups of leaves *)

(** Leaf [i] of the table holds the empty vector. *)
Definition leaf_empty (pv : PredictionValues) (i : nat) : bool :=
  match values pv !! i with
  | Some [] => true
  | _ => false
  end.

(** No leaf of [group] is empty. *)
Definition all_nonempty (pv : PredictionValues) (ci_group_size group : nat)
    : bool :=
  forallb (fun j => negb (leaf_empty pv (group * ci_group_size + j)))
    (seq 0 ci_group_size).

(** The table stores, for each leaf, no vector or one with an entry for
    every class below [n]. *)
Definition table_covers (n : nat) (pv : PredictionValues) : Prop :=
  Forall (fun leaf => leaf = [] \/ n <= length leaf) (values pv).

(** Every label that [data] gives to a sample of a leaf is a class. *)
Definition labels_in_range (num_classes : nat) (data : Data)
    (leaf_samples : list (list nat)) : Prop :=
  forall leaf_node sample,
    In leaf_node leaf_samples -> In sample leaf_node ->
    get_outcome data sample < num_classes.

(** ** The scenario of the specification *)

Definition scenario_table : PredictionValues :=
  mkPredictionValues
    [[decimal 2 10; decimal 8 10]; [decimal 8 10; decimal 2 10];
     [decimal 3 10; decimal 7 10]; [decimal 7 10; decimal 3 10]] 2.

Definition scenario_average : list double := [decimal 5 10; decimal 5 10].

(** [(var_between, var_total, group_noise, num_good_groups)] of class
    [cls] in the scenario. *)
Definition scenario_terms (cls : nat)
    : result (double * double * double * double) :=
  average_outcome ← at_ scenario_average cls;
  acc ← group_loop scenario_table 2 cls average_outcome;
  Ok (variance_terms 2 acc, num_good_groups acc).

(** [2^-110], about [7.7e-34]. *)
Definition two_pow_m110 : double := S754_finite false (2 ^ 52) (-162).

(** ** A leaf of negligible weight *)

(** Three samples of weight [1e-17] each, with labels 0, 1 and 0. *)
Definition light_data : Data :=
  mkData (fun sample => match sample with 1 => 1 | _ => 0 end)
         (fun _ => decimal 1 (10 ^ 17)).

Definition light_leaves : list (list nat) := [[0; 1; 2]].

(** The weights of the three samples, added from the left. *)
Definition light_weight_sum : double :=
  let w := decimal 1 (10 ^ 17) in (((zero + w) + w) + w)%double.

(** The table with one leaf that holds [2e-17, 1e-17]. *)
Definition light_table : PredictionValues :=
  mkPredictionValues [[decimal 2 (10 ^ 17); decimal 1 (10 ^ 17)]] 2.

(** The sum of a vector, from the left. *)
Definition sum_entries (v : list double) : double :=
  foldl add zero v.

(** A debiaser that meets the non-negativity contract: the naive
    correction [var_between - group_noise], clamped at 0. *)
Definition clamp_debias (var_between group_noise n : double) : double :=
  let d := (var_between - group_noise)%double in
  if leb zero d then d else zero.


(** A table whose first group holds an empty leaf and which ends in a
    partial group. *)
Definition gappy_table : PredictionValues :=
  mkPredictionValues
    [[decimal 2 10; decimal 8 10]; [];
     [decimal 3 10; decimal 7 10]; [decimal 7 10; decimal 3 10];
     [decimal 1 10; decimal 9 10]] 2.

(** ** When the calls are defined, and what the table holds *)

(** [compute_variance] reads an entry of the average vector for every
    class, divides by the group size, and reads an entry for every class
    from every leaf of every group without an empty leaf. *)
Definition variance_defined (num_classes : nat) (average : list double)
    (pv : PredictionValues) (ci_group_size : nat) : Prop :=
  num_classes = 0
  \/ (ci_group_size <> 0
      /\ num_classes <= length average
      /\ forall group j leaf,
           group < get_num_nodes pv / ci_group_size ->
           all_nonempty pv ci_group_size group = true ->
           j < ci_group_size ->
           values pv !! (group * ci_group_size + j) = Some leaf ->
           num_classes <= length leaf).

(** The number of groups without an empty leaf. *)
Definition count_good (pv : PredictionValues) (ci_group_size : nat) : nat :=
  length
    (List.filter (all_nonempty pv ci_group_size)
       (seq 0 (get_num_nodes pv / ci_group_size))).

(** The calls that the loop over the samples makes for one sample. *)
Definition sample_calls (sample : nat) : list query :=
  [QOutcome sample; QWeight sample; QWeight sample].

(** The weights of the samples of a leaf, added from the left. *)
Definition total_weight (data : Data) (leaf_node : list nat) : double :=
  foldl add zero (get_weight data <$> leaf_node).

(** The weights of the samples of a leaf that have label [cls], added
    from the left. *)
Definition class_weight (data : Data) (leaf_node : list nat) (cls : nat)
    : double :=
  foldl add zero
    (get_weight data
       <$> List.filter (fun sample => Nat.eqb (get_outcome data sample) cls)
             leaf_node).

(** The vector that a leaf with samples holds in the table. *)
Definition leaf_vector (num_classes : nat) (data : Data)
    (leaf_node : list nat) : list double :=
  let weight_sum := total_weight data leaf_node in
  (fun cls =>
     if leb (fabs weight_sum) tiny then class_weight data leaf_node cls
     else (class_weight data leaf_node cls / weight_sum)%double)
  <$> seq 0 num_classes.


(** [x] is a zero or a finite number: neither NaN nor an infinity. *)
Definition is_finite (x : double) : bool :=
  match x with
  | S754_zero _ | S754_finite _ _ _ => true
  | S754_infinity _ | S754_nan => false
  end.

(** What the table holds for a leaf: nothing for a leaf without samples. *)
Definition leaf_value (num_classes : nat) (data : Data)
    (leaf_node : list nat) : list double :=
  match leaf_node with
  | [] => []
  | _ => leaf_vector num_classes data leaf_node
  end.

(** The scenario with other values for class 1. *)
Definition scenario_table_alt : PredictionValues :=
  mkPredictionValues
    [[decimal 2 10; decimal 1 10]; [decimal 8 10; decimal 9 10];
     [decimal 3 10; decimal 3 10]; [decimal 7 10; zero]] 2.

(** Samples of weight 1; sample [s] has label [s mod 2]. *)
Definition unit_data : Data :=
  mkData (fun sample => sample mod 2) (fun _ => one).

(** As [unit_data], but sample 7, which is in no leaf, is heavier. *)
Definition unit_data_alt : Data :=
  mkData (fun sample => sample mod 2)
         (fun sample => if Nat.eqb sample 7 then of_Z 5 else one).

Definition unit_leaves : list (list nat) := [[0; 1; 2]; []; [3]].

(** As [unit_data], but the weight of sample 1 is NaN. *)
Definition nan_data : Data :=
  mkData (fun sample => sample mod 2)
         (fun sample => if Nat.eqb sample 1 then nan else one).

(** * Theorems *)

(** ** The result monad and the loops *)

Lemma bind_Ok {A B : Type} (m : result A) (k : A -> result B) (b : B) :
  m ≫= k = Ok b <-> exists a, m = Ok a /\ k a = Ok b.
Proof.
  destruct m as [a|f]; simpl; split.
  - intros H. exists a. auto.
  - intros (a' & Ha & Hk). injection Ha as ->. exact Hk.
  - discriminate.
  - intros (a' & Ha & _). discriminate.
Qed.

(** One step of a sequence whose first computation has been rewritten
    to its result. *)
Ltac bind_step := unfold mbind, result_bind; cbv beta iota.

Lemma for_each_app {A S : Type} (xs ys : list A) (body : A -> S -> result S)
    (s : S) :
  for_each (xs ++ ys) body s = for_each xs body s ≫= for_each ys body.
Proof.
  revert s. induction xs as [|x xs IH]; intros s; simpl; [reflexivity|].
  destruct (body x s) as [s'|f]; simpl; [apply IH | reflexivity].
Qed.

Lemma for_range_S {S : Type} (n : nat) (body : nat -> S -> result S) (s : S) :
  for_range (Datatypes.S n) body s = for_range n body s ≫= body n.
Proof.
  unfold for_range. rewrite seq_S, for_each_app. simpl.
  destruct (for_each (seq 0 n) body s) as [s'|f]; simpl; [|reflexivity].
  destruct (body n s'); reflexivity.
Qed.

Lemma for_each_ext {A S : Type} (xs : list A) (body1 body2 : A -> S -> result S)
    (s : S) :
  (forall x s', In x xs -> body1 x s' = body2 x s') ->
  for_each xs body1 s = for_each xs body2 s.
Proof.
  revert s. induction xs as [|x xs IH]; intros s H; simpl; [reflexivity|].
  rewrite (H x s) by (left; reflexivity).
  destruct (body2 x s) as [s'|f]; simpl; [|reflexivity].
  apply IH. intros y s'' Hy. apply H. right. exact Hy.
Qed.

Lemma for_range_ext {S : Type} (n : nat) (body1 body2 : nat -> S -> result S)
    (s : S) :
  (forall i s', i < n -> body1 i s' = body2 i s') ->
  for_range n body1 s = for_range n body2 s.
Proof.
  intros H. apply for_each_ext. intros i s' Hi.
  apply in_seq in Hi. apply H. lia.
Qed.

(** A loop whose body does nothing on the elements rejected by [keep] is
    the loop over the elements it keeps. *)
Lemma for_each_filter {A S : Type} (keep : A -> bool) (xs : list A)
    (body : A -> S -> result S) (s : S) :
  (forall x s', In x xs -> keep x = false -> body x s' = Ok s') ->
  for_each xs body s = for_each (List.filter keep xs) body s.
Proof.
  revert s. induction xs as [|x xs IH]; intros s H; simpl; [reflexivity|].
  destruct (keep x) eqn:Hk; simpl.
  - destruct (body x s) as [s'|f]; simpl; [|reflexivity].
    apply IH. intros y s'' Hy. apply H. right. exact Hy.
  - rewrite (H x s) by (auto; left; reflexivity). simpl.
    apply IH. intros y s'' Hy. apply H. right. exact Hy.
Qed.

(** ** The table *)

Lemma at_lookup {A : Type} (v : list A) (i : nat) (a : A) :
  v !! i = Some a -> at_ v i = Ok a.
Proof. unfold at_. intros ->. reflexivity. Qed.

Lemma empty_in_range (pv : PredictionValues) (i : nat) :
  i < get_num_nodes pv -> empty pv i = Ok (leaf_empty pv i).
Proof.
  unfold get_num_nodes, empty, leaf_empty, at_. intros Hi.
  destruct (lookup_lt_is_Some_2 (values pv) i Hi) as [v Hv].
  rewrite Hv. simpl. destruct v; reflexivity.
Qed.

Lemma empty_true (pv : PredictionValues) (i : nat) :
  empty pv i = Ok true -> values pv !! i = Some [].
Proof.
  unfold empty, at_. destruct (values pv !! i) as [v|]; [|discriminate].
  destruct v; [reflexivity | discriminate].
Qed.

(** The indices of a group below the bound of the loop are in range. *)
Lemma group_index_lt (n g group j : nat) :
  group < n / g -> j < g -> group * g + j < n / g * g /\ n / g * g <= n.
Proof.
  intros Hgroup Hj. split; [nia|].
  destruct g as [|g]; [lia|].
  pose proof (Nat.div_mod_eq n (Datatypes.S g)). nia.
Qed.

(** ** compute_variance: groups *)

Lemma good_group_from (pv : PredictionValues) (g group : nat) (js : list nat)
    (good : bool) :
  (forall j, In j js -> group * g + j < get_num_nodes pv) ->
  for_each js
    (fun j good =>
       e ← empty pv (group * g + j);
       Ok (if e : bool then false else good))
    good
  = Ok (good && forallb (fun j => negb (leaf_empty pv (group * g + j))) js).
Proof.
  revert good. induction js as [|j js IH]; intros good H; simpl.
  - rewrite andb_true_r. reflexivity.
  - rewrite empty_in_range by (apply H; left; reflexivity). simpl.
    rewrite IH by (intros j' Hj'; apply H; right; exact Hj').
    destruct (leaf_empty pv (group * g + j)), good; reflexivity.
Qed.

Lemma good_group_all_nonempty (pv : PredictionValues) (g group : nat) :
  group < get_num_nodes pv / g ->
  good_group pv g group = Ok (all_nonempty pv g group).
Proof.
  intros Hgroup. unfold good_group, for_range, all_nonempty.
  rewrite good_group_from; [reflexivity|].
  intros j Hj. apply in_seq in Hj.
  destruct (group_index_lt (get_num_nodes pv) g group j); lia.
Qed.

Lemma all_nonempty_false (pv : PredictionValues) (g group j : nat) :
  j < g -> values pv !! (group * g + j) = Some [] ->
  all_nonempty pv g group = false.
Proof.
  intros Hj Hv. unfold all_nonempty.
  apply not_true_is_false. intros Hall.
  rewrite forallb_forall in Hall.
  specialize (Hall j). unfold leaf_empty in Hall. rewrite Hv in Hall.
  assert (In j (seq 0 g)) as Hin by (apply in_seq; lia).
  specialize (Hall Hin). discriminate.
Qed.

Lemma group_body_skip (pv : PredictionValues) (g cls : nat) (ao : double)
    (group : nat) (acc : accumulators) :
  group < get_num_nodes pv / g ->
  all_nonempty pv g group = false ->
  group_body pv g cls ao group acc = Ok acc.
Proof.
  intros Hgroup Hbad. unfold group_body.
  rewrite good_group_all_nonempty by exact Hgroup.
  rewrite Hbad. reflexivity.
Qed.

(** ** predict and compute_error *)

(** C7: [predict] returns the average vector it is given, unchanged. *)
Theorem predict_identity (average : list double) :
  predict average = average.
Proof. reflexivity. Qed.

(** C8: [compute_error] returns exactly one pair, both components of
    which are NaN, whatever the sample, the average vector, the table and
    the data accessor. *)
Theorem compute_error_nan (sample : nat) (average : list double)
    (leaf_values : PredictionValues) (data : Data) :
  compute_error sample average leaf_values data = [(nan, nan)]
  /\ is_nan nan = true.
Proof. split; reflexivity. Qed.

(** ** compute_variance: empty leaves and partial groups *)

(** C3: in the loop over groups, a group with at least one empty leaf
    leaves the three accumulators (good-group count, squared deviations,
    squared group means) as they were, for every class; and the loop is
    the loop over the groups all of whose leaves are non-empty. *)
Theorem empty_leaf_discards_group (pv : PredictionValues)
    (g cls : nat) (ao : double) :
  g <> 0 ->
  (forall group acc,
     group < get_num_nodes pv / g ->
     (exists j, j < g /\ empty pv (group * g + j) = Ok true) ->
     group_body pv g cls ao group acc = Ok acc)
  /\ group_loop pv g cls ao
     = for_each
         (List.filter (all_nonempty pv g) (seq 0 (get_num_nodes pv / g)))
         (group_body pv g cls ao) acc0.
Proof.
  intros Hg. split.
  - intros group acc Hgroup (j & Hj & Hv). apply empty_true in Hv.
    apply group_body_skip; [exact Hgroup|].
    exact (all_nonempty_false pv g group j Hj Hv).
  - unfold group_loop. apply Nat.eqb_neq in Hg. rewrite Hg.
    unfold for_range. apply for_each_filter.
    intros group acc Hin Hbad. apply in_seq in Hin.
    apply group_body_skip; [lia | exact Hbad].
Qed.

Lemma empty_leaf_discards_group_witness :
  group_body gappy_table 2 0 (decimal 5 10) 0 acc0 = Ok acc0.
Proof.
  refine (proj1 (empty_leaf_discards_group gappy_table 2 0 (decimal 5 10) _)
            0 acc0 _ _).
  - discriminate.
  - vm_compute. lia.
  - exists 1. split; [lia | reflexivity].
Defined.

Lemma empty_agree (pv1 pv2 : PredictionValues) (i : nat) :
  values pv1 !! i = values pv2 !! i -> empty pv1 i = empty pv2 i.
Proof. unfold empty, at_. intros ->. reflexivity. Qed.

Lemma get_agree (pv1 pv2 : PredictionValues) (i cls : nat) :
  values pv1 !! i = values pv2 !! i -> get pv1 i cls = get pv2 i cls.
Proof. unfold get, at_. intros ->. reflexivity. Qed.

Lemma group_body_agree (pv1 pv2 : PredictionValues) (g cls : nat)
    (ao : double) (group : nat) (acc : accumulators) :
  (forall j, j < g ->
     values pv1 !! (group * g + j) = values pv2 !! (group * g + j)) ->
  group_body pv1 g cls ao group acc = group_body pv2 g cls ao group acc.
Proof.
  intros H. unfold group_body.
  assert (good_group pv1 g group = good_group pv2 g group) as ->.
  { unfold good_group. apply for_range_ext. intros j good Hj.
    rewrite (empty_agree pv1 pv2) by (apply H; exact Hj). reflexivity. }
  destruct (good_group pv2 g group) as [good|f]; simpl; [|reflexivity].
  destruct good; simpl; [|reflexivity].
  assert (sum_group pv1 g cls ao group (psi_squared acc, zero)
          = sum_group pv2 g cls ao group (psi_squared acc, zero)) as ->.
  { unfold sum_group. apply for_range_ext. intros j [ps gp] Hj.
    rewrite (get_agree pv1 pv2) by (apply H; exact Hj). reflexivity. }
  reflexivity.
Qed.

Lemma group_loop_agree (pv1 pv2 : PredictionValues) (g cls : nat)
    (ao : double) :
  get_num_nodes pv1 / g = get_num_nodes pv2 / g ->
  (forall i, i < get_num_nodes pv1 / g * g ->
     values pv1 !! i = values pv2 !! i) ->
  group_loop pv1 g cls ao = group_loop pv2 g cls ao.
Proof.
  intros Hn H. unfold group_loop.
  destruct (Nat.eqb g 0); [reflexivity|].
  rewrite <- Hn. apply for_range_ext. intros group acc Hgroup.
  apply group_body_agree. intros j Hj. apply H.
  destruct (group_index_lt (get_num_nodes pv1) g group j); assumption.
Qed.

(** C9: only the complete groups are read.  Two tables with the same
    number [floor (N / ci_group_size)] of complete groups that agree on
    the leaves of those groups give the same result, whatever either one
    holds after them. *)
Theorem trailing_partial_group_ignored (num_classes : nat)
    (debias : double -> double -> double -> double)
    (average : list double) (pv1 pv2 : PredictionValues) (g : nat) :
  get_num_nodes pv1 / g = get_num_nodes pv2 / g ->
  (forall i, i < get_num_nodes pv1 / g * g ->
     values pv1 !! i = values pv2 !! i) ->
  compute_variance num_classes debias average pv1 g
  = compute_variance num_classes debias average pv2 g.
Proof.
  intros Hn H. unfold compute_variance.
  apply for_range_ext. intros cls v _.
  unfold class_variance.
  destruct (at_ average cls) as [ao|f]; simpl; [|reflexivity].
  rewrite (group_loop_agree pv1 pv2 g cls ao Hn H). reflexivity.
Qed.

Lemma trailing_partial_group_ignored_witness :
  compute_variance 2 clamp_debias scenario_average scenario_table 2
  = compute_variance 2 clamp_debias scenario_average
      (mkPredictionValues (values scenario_table ++ [[]]) 2) 2.
Proof.
  apply trailing_partial_group_ignored.
  - reflexivity.
  - intros i Hi.
    change (get_num_nodes scenario_table / 2 * 2) with 4 in Hi.
    simpl values.
    do 4 (destruct i as [|i]; [reflexivity|]). lia.
Defined.

(** ** compute_variance: the result vector *)

Lemma for_each_total {A S : Type} (xs : list A) (body : A -> S -> result S)
    (s : S) :
  (forall x s', In x xs -> exists s'', body x s' = Ok s'') ->
  exists s', for_each xs body s = Ok s'.
Proof.
  revert s. induction xs as [|x xs IH]; intros s H; simpl.
  - exists s. reflexivity.
  - destruct (H x s) as [s' Hs']; [left; reflexivity|].
    rewrite Hs'. simpl. apply IH. intros y s'' Hy. apply H. right. exact Hy.
Qed.

Section InsertLoop.

Context {A : Type} (f : nat -> result A).

Lemma store_loop_spec (n : nat) (v0 v : list A) :
  store_loop f n v0 = Ok v ->
  length v = length v0
  /\ (forall i, i < n -> i < length v0 ->
        exists x, f i = Ok x /\ v !! i = Some x)
  /\ (forall i, n <= i -> v !! i = v0 !! i).
Proof.
  unfold store_loop. revert v.
  induction n as [|n IH]; intros v Hv.
  - injection Hv as <-. split; [reflexivity|]. split.
    + intros i Hi. lia.
    + reflexivity.
  - rewrite for_range_S in Hv. apply bind_Ok in Hv as (v1 & Hv1 & Hv).
    apply bind_Ok in Hv as (x & Hx & Hv). injection Hv as <-.
    destruct (IH v1 Hv1) as (Hlen & Hbelow & Habove).
    split; [rewrite length_insert; exact Hlen|]. split.
    + intros i Hi Hi0. destruct (decide (i = n)) as [->|Hne].
      * exists x. split; [exact Hx|].
        apply list_lookup_insert_eq. lia.
      * destruct (Hbelow i) as (y & Hy & Hvy); [lia|lia|].
        exists y. split; [exact Hy|].
        rewrite list_lookup_insert_ne by congruence. exact Hvy.
    + intros i Hi. rewrite list_lookup_insert_ne by lia.
      apply Habove. lia.
Qed.

Lemma store_loop_total (n : nat) (v0 : list A) :
  (forall i, i < n -> exists x, f i = Ok x) ->
  exists v, store_loop f n v0 = Ok v.
Proof.
  intros H. apply for_each_total. intros i v Hi. apply in_seq in Hi.
  destruct (H i) as [x Hx]; [lia|]. rewrite Hx. simpl. eauto.
Qed.

End InsertLoop.

Lemma compute_variance_store (num_classes : nat)
    (debias : double -> double -> double -> double)
    (average : list double) (pv : PredictionValues) (g : nat) :
  compute_variance num_classes debias average pv g
  = store_loop (class_variance debias average pv g) num_classes
      (replicate num_classes zero).
Proof. reflexivity. Qed.

(** What [class_variance] returns, when it returns. *)
Lemma class_variance_Ok (debias : double -> double -> double -> double)
    (average : list double) (pv : PredictionValues) (g cls : nat)
    (x : double) :
  class_variance debias average pv g cls = Ok x ->
  exists ao acc,
    average !! cls = Some ao
    /\ group_loop pv g cls ao = Ok acc
    /\ x = debias (variance_terms g acc).1.1 (variance_terms g acc).2
           (num_good_groups acc).
Proof.
  unfold class_variance. intros H.
  apply bind_Ok in H as (ao & Hao & H).
  apply bind_Ok in H as (acc & Hacc & H).
  exists ao, acc. unfold at_ in Hao.
  destruct (average !! cls) as [a|]; [|discriminate].
  injection Hao as ->. split; [reflexivity|]. split; [exact Hacc|].
  simpl in H. injection H as <-. reflexivity.
Qed.

Lemma get_total (pv : PredictionValues) (i cls : nat) (leaf : list double) :
  values pv !! i = Some leaf -> cls < length leaf ->
  exists x, get pv i cls = Ok x.
Proof.
  intros Hleaf Hcls. unfold get, at_. rewrite Hleaf. simpl.
  destruct (lookup_lt_is_Some_2 leaf cls Hcls) as [x Hx].
  rewrite Hx. eauto.
Qed.

Lemma all_nonempty_leaf (pv : PredictionValues) (g group j : nat) :
  all_nonempty pv g group = true -> j < g ->
  values pv !! (group * g + j) <> Some [].
Proof.
  intros Hall Hj Hv.
  rewrite (all_nonempty_false pv g group j Hj Hv) in Hall. discriminate.
Qed.

Lemma group_loop_total (pv : PredictionValues) (g cls : nat) (ao : double) :
  g <> 0 -> table_covers (S cls) pv ->
  exists acc, group_loop pv g cls ao = Ok acc.
Proof.
  intros Hg Hcov. unfold group_loop.
  apply Nat.eqb_neq in Hg. rewrite Hg.
  apply for_each_total. intros group acc Hin. apply in_seq in Hin.
  assert (group < get_num_nodes pv / g) as Hgroup by lia.
  unfold group_body. rewrite good_group_all_nonempty by exact Hgroup.
  simpl. destruct (all_nonempty pv g group) eqn:Hall; simpl; [|eauto].
  assert (exists st, sum_group pv g cls ao group (psi_squared acc, zero)
                     = Ok st) as [[ps gp] Hst].
  { apply for_each_total. intros j [ps gp] Hj. apply in_seq in Hj.
    assert (j < g) as Hjg by lia.
    destruct (group_index_lt (get_num_nodes pv) g group j Hgroup Hjg)
      as [Hlt Hle].
    destruct (lookup_lt_is_Some_2 (values pv) (group * g + j))
      as [leaf Hleaf]; [unfold get_num_nodes in *; lia|].
    destruct (get_total pv (group * g + j) cls leaf Hleaf) as [x Hx].
    - unfold table_covers in Hcov. rewrite Forall_forall in Hcov.
      destruct (Hcov leaf) as [->|Hlen].
      + apply list_elem_of_lookup. eauto.
      + exfalso. apply (all_nonempty_leaf pv g group j Hall); [lia|].
        exact Hleaf.
      + lia.
    - cbv zeta. rewrite Hx. simpl. eauto. }
  rewrite Hst. simpl. eauto.
Qed.

Lemma table_covers_le (n m : nat) (pv : PredictionValues) :
  n <= m -> table_covers m pv -> table_covers n pv.
Proof.
  intros Hle Hm. unfold table_covers in *.
  eapply Forall_impl; [exact Hm|].
  intros leaf [->|H]; [left; reflexivity | right; lia].
Qed.

Lemma class_variance_total (debias : double -> double -> double -> double)
    (average : list double) (pv : PredictionValues) (g cls : nat) :
  g <> 0 -> cls < length average -> table_covers (S cls) pv ->
  exists x, class_variance debias average pv g cls = Ok x.
Proof.
  intros Hg Hcls Hcov. unfold class_variance.
  destruct (lookup_lt_is_Some_2 average cls Hcls) as [ao Hao].
  rewrite (at_lookup average cls ao Hao). simpl.
  destruct (group_loop_total pv g cls ao Hg Hcov) as [acc ->]. simpl.
  destruct (variance_terms g acc) as [[vb vt] gn]. eauto.
Qed.

(** C4: a vector returned by [compute_variance] has length
    [num_classes]; if [debias] returns a non-negative value whenever its
    count argument is positive, the entry of every class whose count of
    good groups is positive is non-negative; and the call returns, when
    the group size is not 0, the average vector has an entry for every
    class and so has every non-empty leaf of the table. *)
Theorem compute_variance_length_nonneg (num_classes : nat)
    (debias : double -> double -> double -> double)
    (average : list double) (pv : PredictionValues) (g : nat) :
  (forall vb gn n, ltb zero n = true -> nonneg (debias vb gn n) = true) ->
  (forall v,
     compute_variance num_classes debias average pv g = Ok v ->
     length v = num_classes
     /\ forall cls ao acc,
          cls < num_classes ->
          average !! cls = Some ao ->
          group_loop pv g cls ao = Ok acc ->
          ltb zero (num_good_groups acc) = true ->
          exists x, v !! cls = Some x /\ nonneg x = true)
  /\ (g <> 0 -> num_classes <= length average ->
      table_covers num_classes pv ->
      exists v, compute_variance num_classes debias average pv g = Ok v).
Proof.
  intros Hdebias. rewrite compute_variance_store. split.
  - intros v Hv. apply store_loop_spec in Hv as (Hlen & Hbelow & _).
    rewrite length_replicate in Hlen, Hbelow.
    split; [exact Hlen|].
    intros cls ao acc Hcls Hao Hacc Hpos.
    destruct (Hbelow cls Hcls Hcls) as (x & Hx & Hvx).
    exists x. split; [exact Hvx|].
    apply class_variance_Ok in Hx as (ao' & acc' & Hao' & Hacc' & ->).
    rewrite Hao in Hao'. injection Hao' as <-.
    rewrite Hacc in Hacc'. injection Hacc' as <-.
    apply Hdebias. exact Hpos.
  - intros Hg Havg Hcov. apply store_loop_total. intros cls Hcls.
    apply class_variance_total; [exact Hg | lia |].
    apply (table_covers_le (S cls) num_classes); [lia | exact Hcov].
Qed.

Lemma clamp_debias_nonneg (vb gn n : double) :
  ltb zero n = true -> nonneg (clamp_debias vb gn n) = true.
Proof.
  intros _. unfold clamp_debias, nonneg.
  destruct (leb zero (vb - gn)%double) eqn:Hd; [exact Hd | reflexivity].
Qed.

Lemma scenario_table_covers : table_covers 2 scenario_table.
Proof.
  unfold table_covers, scenario_table. simpl.
  repeat constructor; right; simpl; lia.
Qed.

Lemma compute_variance_length_nonneg_witness :
  exists v,
    compute_variance 2 clamp_debias scenario_average scenario_table 2 = Ok v
    /\ length v = 2.
Proof.
  destruct (compute_variance_length_nonneg 2 clamp_debias scenario_average
              scenario_table 2 clamp_debias_nonneg) as [Hret Htotal].
  destruct Htotal as [v Hv].
  - discriminate.
  - simpl. lia.
  - exact scenario_table_covers.
  - exists v. split; [exact Hv|]. apply (Hret v Hv).
Defined.

(** ** compute_variance: no good group *)










(** ** compute_variance: the scenario *)

(** In the scenario, with its decimals rounded to binary64,
    [var_between] of class 0 is [2^-110]: the deviations of the first
    group are [-5404319552844595 * 2^-54] and [5404319552844596 * 2^-54]
    and sum to [2^-54], those of the second sum to [-2^-54].  [var_total]
    and [group_noise] are the binary64 value of 0.065 and the count of
    good groups is 2. *)
Lemma scenario_terms_0 :
  scenario_terms 0
  = Ok (two_pow_m110, decimal 65 1000, decimal 65 1000, of_Z 2).
Proof. vm_compute. reflexivity. Qed.

Lemma two_pow_m110_negligible :
  ltb zero two_pow_m110 = true /\ ltb two_pow_m110 tiny = true.
Proof. split; reflexivity. Qed.

(** The entry of class 0 in the scenario is [debias] of these. *)
Lemma scenario_class_variance
    (debias : double -> double -> double -> double) :
  class_variance debias scenario_average scenario_table 2 0
  = Ok (debias two_pow_m110 (decimal 65 1000) (of_Z 2)).
Proof. vm_compute. reflexivity. Qed.

(** ** precompute_prediction_values: a leaf of negligible weight *)

(** The total weight of the leaf of [light_leaves], as the loop over its
    samples accumulates it, is at most [1e-16] in absolute value. *)
Lemma light_leaf_weight_sum :
  accumulate light_data [0; 1; 2] (replicate 2 zero, zero, [])
  = Ok (values light_table !!! 0, light_weight_sum,
        [QOutcome 0; QWeight 0; QWeight 0;
         QOutcome 1; QWeight 1; QWeight 1;
         QOutcome 2; QWeight 2; QWeight 2])
  /\ leb (fabs light_weight_sum) tiny = true.
Proof. split; vm_compute; reflexivity. Qed.

(** C1 fails on the code: the leaf of [light_leaves] has three samples
    and a total weight of about [3e-17], at most [1e-16], and the returned
    table does not flag it empty.  [averages.resize(num_classes)] has run
    on [values[i]] before the test of the total weight, so the [continue]
    leaves the vector of accumulated weights [2e-17, 1e-17] in the
    table. *)
Theorem negligible_weight_leaf_not_empty :
  leb (fabs light_weight_sum) tiny = true
  /\ precompute_prediction_values 2 light_leaves light_data
     = Ok light_table
  /\ length (values light_table !!! 0) = 2
  /\ empty light_table 0 = Ok false.
Proof.
  split; [apply light_leaf_weight_sum|].
  repeat split; vm_compute; reflexivity.
Qed.

(** C5 fails on the code, by the same defect: the weights of
    [light_data] are non-negative and its labels are below 2, the leaf of
    [light_leaves] is not flagged empty in the returned table, and its two
    entries sum to less than [1e-16], not to 1. *)
Theorem light_leaf_sum_not_one :
  (forall sample, nonneg (get_weight light_data sample) = true)
  /\ (forall sample, get_outcome light_data sample < 2)
  /\ precompute_prediction_values 2 light_leaves light_data = Ok light_table
  /\ empty light_table 0 = Ok false
  /\ length (values light_table !!! 0) = 2
  /\ ltb (sum_entries (values light_table !!! 0)) tiny = true.
Proof.
  split; [intros sample; reflexivity|]. split.
  - intros sample. simpl.
    destruct sample as [|[|sample]]; lia.
  - repeat split; vm_compute; reflexivity.
Qed.

(** ** precompute_prediction_values: one entry per leaf *)

Lemma resize_nil (n : nat) : resize [] n = replicate n zero.
Proof. unfold resize. rewrite take_nil. simpl. rewrite Nat.sub_0_r. reflexivity. Qed.

Lemma accumulate_cons (data : Data) (sample : nat) (leaf_node : list nat)
    (averages : list double) (weight_sum : double) (log : list query) :
  accumulate data (sample :: leaf_node) (averages, weight_sum, log)
  = match averages !! get_outcome data sample with
    | None => Raise undefined_behaviour
    | Some a =>
        accumulate data leaf_node
          (<[get_outcome data sample := (a + get_weight data sample)%double]>
             averages,
           (weight_sum + get_weight data sample)%double,
           log ++ [QOutcome sample; QWeight sample; QWeight sample])
    end.
Proof.
  unfold accumulate. simpl.
  destruct (averages !! get_outcome data sample); reflexivity.
Qed.

(** The calls of the loop over the samples are appended to the log. *)
Lemma accumulate_log (data : Data) (leaf_node : list nat)
    (averages : list double) (weight_sum : double) (log : list query) :
  accumulate data leaf_node (averages, weight_sum, log)
  = match accumulate data leaf_node (averages, weight_sum, []) with
    | Ok (averages', weight_sum', queries) =>
        Ok (averages', weight_sum', log ++ queries)
    | Raise f => Raise f
    end.
Proof.
  revert averages weight_sum log.
  induction leaf_node as [|sample leaf_node IH]; intros averages w log.
  - unfold accumulate. simpl. rewrite app_nil_r. reflexivity.
  - rewrite !accumulate_cons.
    destruct (averages !! get_outcome data sample) as [a|]; [|reflexivity].
    rewrite IH. symmetry. rewrite IH. symmetry.
    destruct (accumulate data leaf_node _) as [[[av' w'] q]|f];
      [|reflexivity].
    rewrite app_nil_l, app_assoc. reflexivity.
Qed.

Lemma accumulate_length (data : Data) (leaf_node : list nat)
    (averages : list double) (weight_sum : double) (log : list query)
    (averages' : list double) (weight_sum' : double) (log' : list query) :
  accumulate data leaf_node (averages, weight_sum, log)
  = Ok (averages', weight_sum', log') ->
  length averages' = length averages.
Proof.
  revert averages weight_sum log.
  induction leaf_node as [|sample leaf_node IH]; intros averages w log H.
  - unfold accumulate in H. simpl in H. injection H as <- _ _. reflexivity.
  - rewrite accumulate_cons in H.
    destruct (averages !! get_outcome data sample) as [a|]; [|discriminate].
    apply IH in H. rewrite length_insert in H. exact H.
Qed.

Lemma accumulate_total (data : Data) (leaf_node : list nat)
    (averages : list double) (weight_sum : double) (log : list query) :
  (forall sample, In sample leaf_node ->
     get_outcome data sample < length averages) ->
  exists st, accumulate data leaf_node (averages, weight_sum, log) = Ok st.
Proof.
  revert averages weight_sum log.
  induction leaf_node as [|sample leaf_node IH]; intros averages w log H.
  - unfold accumulate. simpl. eauto.
  - rewrite accumulate_cons.
    destruct (lookup_lt_is_Some_2 averages (get_outcome data sample))
      as [a Ha]; [apply H; left; reflexivity|].
    rewrite Ha. apply IH. intros sample' Hin.
    rewrite length_insert. apply H. right. exact Hin.
Qed.

Lemma normalize_steps (weight_sum : double) (averages : list double)
    (k : nat) :
  k <= length averages ->
  exists averages',
    for_range k
      (fun cls averages =>
         match averages !! cls with
         | None => Raise undefined_behaviour
         | Some a => Ok (<[cls := (a / weight_sum)%double]> averages)
         end)
      averages
    = Ok averages'
    /\ length averages' = length averages.
Proof.
  induction k as [|k IH]; intros Hk.
  - exists averages. split; reflexivity.
  - destruct IH as (av & Hav & Hlen); [lia|].
    rewrite for_range_S, Hav. bind_step.
    destruct (lookup_lt_is_Some_2 av k) as [a Ha]; [lia|].
    rewrite Ha. eexists. split; [reflexivity|].
    rewrite length_insert. exact Hlen.
Qed.

Lemma normalize_total (num_classes : nat) (weight_sum : double)
    (averages : list double) :
  length averages = num_classes ->
  exists averages',
    normalize num_classes weight_sum averages = Ok averages'
    /\ length averages' = num_classes.
Proof.
  intros Hlen. unfold normalize.
  destruct (normalize_steps weight_sum averages num_classes)
    as (av & Hav & Hlen'); [lia|].
  exists av. split; [exact Hav | lia].
Qed.

(** An iteration of the loop over leaves that finds the empty vector in
    [values[i]] stores the entry of the leaf there. *)
Lemma leaf_body_entry (num_classes : nat) (leaf_samples : list (list nat))
    (data : Data) (i : nat) (leaf_node : list nat)
    (values : list (list double)) (log : list query) :
  leaf_samples !! i = Some leaf_node ->
  values !! i = Some [] ->
  leaf_body num_classes leaf_samples data i (values, log)
  = match leaf_entry num_classes data leaf_node with
    | Ok (entry, queries) => Ok (<[i := entry]> values, log ++ queries)
    | Raise f => Raise f
    end.
Proof.
  intros Hleaf Hvalues. unfold leaf_body, leaf_entry.
  rewrite (at_lookup leaf_samples i leaf_node Hleaf). bind_step.
  destruct leaf_node as [|sample leaf_node].
  - rewrite (list_insert_id values i [] Hvalues), app_nil_r. reflexivity.
  - rewrite Hvalues, resize_nil, accumulate_log.
    destruct (accumulate data (sample :: leaf_node) _) as [[[av w] q]|f];
      bind_step; [|reflexivity].
    destruct (leb (fabs w) tiny); [reflexivity|].
    destruct (normalize num_classes w av); reflexivity.
Qed.

Lemma leaf_entry_total (num_classes : nat) (data : Data)
    (leaf_node : list nat) :
  (forall sample, In sample leaf_node ->
     get_outcome data sample < num_classes) ->
  exists entry, leaf_entry num_classes data leaf_node = Ok entry.
Proof.
  intros H. unfold leaf_entry.
  destruct leaf_node as [|sample leaf_node]; [eauto|].
  destruct (accumulate_total data (sample :: leaf_node)
              (replicate num_classes zero) zero [])
    as [[[av w] q] Hacc]; [rewrite length_replicate; exact H|].
  rewrite Hacc. bind_step.
  destruct (leb (fabs w) tiny); [eauto|].
  apply accumulate_length in Hacc. rewrite length_replicate in Hacc.
  destruct (normalize_total num_classes w av Hacc) as (av' & -> & _).
  bind_step. eauto.
Qed.

(** The state of the loop over leaves after [k] iterations: the entries
    of the first [k] leaves, then empty vectors; and their calls. *)
Lemma leaf_loop_spec (num_classes : nat) (leaf_samples : list (list nat))
    (data : Data) (k : nat) (values : list (list double)) (log : list query) :
  k <= length leaf_samples ->
  for_range k (leaf_body num_classes leaf_samples data)
    (replicate (length leaf_samples) [], [])
  = Ok (values, log) ->
  exists entries : list (list double * list query),
    Forall2 (fun leaf_node entry =>
               leaf_entry num_classes data leaf_node = Ok entry)
      (take k leaf_samples) entries
    /\ values = entries.*1 ++ replicate (length leaf_samples - k) []
    /\ log = concat entries.*2.
Proof.
  revert values log. induction k as [|k IH]; intros values log Hk H.
  - injection H as <- <-. exists []. rewrite take_0, Nat.sub_0_r.
    repeat split. constructor.
  - rewrite for_range_S in H. apply bind_Ok in H as ([values' log'] & H' & H).
    destruct (IH values' log') as (entries & Hall & -> & ->);
      [lia | exact H' |].
    pose proof (Forall2_length _ _ _ Hall) as Hlen.
    rewrite length_take in Hlen.
    destruct (lookup_lt_is_Some_2 leaf_samples k) as [leaf_node Hleaf];
      [lia|].
    rewrite (leaf_body_entry num_classes leaf_samples data k leaf_node)
      in H; [|exact Hleaf|].
    + destruct (leaf_entry num_classes data leaf_node)
        as [[entry queries]|f] eqn:Hentry; [|discriminate].
      injection H as <- <-. exists (entries ++ [(entry, queries)]).
      split; [|split].
      * rewrite (take_S_r leaf_samples k leaf_node Hleaf).
        apply Forall2_app; [exact Hall|]. constructor; [exact Hentry|].
        constructor.
      * rewrite insert_app_r_alt by (rewrite length_fmap; lia).
        rewrite length_fmap, fmap_app, <- app_assoc.
        replace (k - length entries) with 0 by lia.
        replace (length leaf_samples - k)
          with (S (length leaf_samples - S k)) by lia.
        reflexivity.
      * rewrite fmap_app, concat_app. simpl. rewrite app_nil_r.
        reflexivity.
    + rewrite lookup_app_r by (rewrite length_fmap; lia).
      apply lookup_replicate_2. rewrite length_fmap. lia.
Qed.

Lemma leaf_loop_total (num_classes : nat) (leaf_samples : list (list nat))
    (data : Data) (k : nat) :
  labels_in_range num_classes data leaf_samples ->
  k <= length leaf_samples ->
  exists st,
    for_range k (leaf_body num_classes leaf_samples data)
      (replicate (length leaf_samples) [], [])
    = Ok st.
Proof.
  intros Hlabels. induction k as [|k IH]; intros Hk.
  - eexists. reflexivity.
  - destruct IH as [[values log] Hst]; [lia|].
    rewrite for_range_S, Hst. bind_step.
    destruct (leaf_loop_spec num_classes leaf_samples data k values log)
      as (entries & Hall & -> & _); [lia | exact Hst |].
    pose proof (Forall2_length _ _ _ Hall) as Hlen.
    rewrite length_take in Hlen.
    destruct (lookup_lt_is_Some_2 leaf_samples k) as [leaf_node Hleaf];
      [lia|].
    rewrite (leaf_body_entry num_classes leaf_samples data k leaf_node);
      [|exact Hleaf|].
    + destruct (leaf_entry_total num_classes data leaf_node)
        as [[entry queries] ->]; [|eauto].
      intros sample Hin. apply (Hlabels leaf_node sample); [|exact Hin].
      apply list_elem_of_In. apply list_elem_of_lookup. eauto.
    + rewrite lookup_app_r by (rewrite length_fmap; lia).
      apply lookup_replicate_2. rewrite length_fmap. lia.
Qed.

(** The call on a single leaf returns the entry of that leaf. *)
Lemma precompute_singleton (num_classes : nat) (data : Data)
    (leaf_node : list nat) :
  precompute_prediction_values_log num_classes [leaf_node] data
  = match leaf_entry num_classes data leaf_node with
    | Ok (entry, queries) =>
        Ok (mkPredictionValues [entry] num_classes, queries)
    | Raise f => Raise f
    end.
Proof.
  unfold precompute_prediction_values_log.
  change (length [leaf_node]) with 1.
  rewrite for_range_S. change (for_range 0 ?body ?s) with (Ok s).
  bind_step.
  rewrite (leaf_body_entry num_classes [leaf_node] data 0 leaf_node)
    by reflexivity.
  destruct (leaf_entry num_classes data leaf_node) as [[entry queries]|f];
    reflexivity.
Qed.

(** C10: a table returned by [precompute_prediction_values] has one
    entry for each input leaf, in the order of the input: entry [i] is the
    entry that the call on leaf [i] alone returns, and the calls made to
    the data accessor are those of the leaves, one leaf after the other.
    For a leaf without samples the entry is the empty vector and no call
    is made.  The call returns whenever every label is a class. *)
Theorem one_entry_per_leaf (num_classes : nat)
    (leaf_samples : list (list nat)) (data : Data) :
  (forall pv log,
     precompute_prediction_values_log num_classes leaf_samples data
     = Ok (pv, log) ->
     length (values pv) = length leaf_samples
     /\ exists calls : list (list query),
          length calls = length leaf_samples
          /\ log = concat calls
          /\ forall i leaf_node,
               leaf_samples !! i = Some leaf_node ->
               exists entry queries,
                 precompute_prediction_values_log num_classes [leaf_node] data
                 = Ok (mkPredictionValues [entry] num_classes, queries)
                 /\ values pv !! i = Some entry
                 /\ calls !! i = Some queries
                 /\ (leaf_node = [] -> entry = [] /\ queries = []))
  /\ (labels_in_range num_classes data leaf_samples ->
      exists pv log,
        precompute_prediction_values_log num_classes leaf_samples data
        = Ok (pv, log)).
Proof.
  split.
  - intros pv log H. unfold precompute_prediction_values_log in H.
    apply bind_Ok in H as ([values log'] & Hloop & H).
    injection H as <- <-.
    apply leaf_loop_spec in Hloop as (entries & Hall & -> & ->); [|lia].
    rewrite take_ge in Hall by lia.
    rewrite Nat.sub_diag, app_nil_r.
    pose proof (Forall2_length _ _ _ Hall) as Hlen. simpl.
    split; [rewrite length_fmap; lia|].
    exists (entries.*2). split; [rewrite length_fmap; lia|].
    split; [reflexivity|].
    intros i leaf_node Hleaf.
    destruct (Forall2_lookup_l _ _ _ i leaf_node Hall Hleaf)
      as ([entry queries] & Hentries & Hentry).
    exists entry, queries.
    split; [rewrite precompute_singleton, Hentry; reflexivity|].
    split; [rewrite list_lookup_fmap, Hentries; reflexivity|].
    split; [rewrite list_lookup_fmap, Hentries; reflexivity|].
    intros ->. simpl in Hentry. injection Hentry as <- <-. auto.
  - intros Hlabels.
    destruct (leaf_loop_total num_classes leaf_samples data
                (length leaf_samples) Hlabels)
      as [[values log] Hloop]; [lia|].
    unfold precompute_prediction_values_log. rewrite Hloop.
    bind_step. eauto.
Qed.

(** A leaf with samples, labels that are classes and a total weight of
    absolute value at most [1e-16] keeps a vector of [num_classes]
    accumulated weights: it is flagged empty only when there is no
    class. *)
Lemma negligible_leaf_entry_length (num_classes : nat) (data : Data)
    (leaf_node : list nat) (averages : list double) (weight_sum : double)
    (log : list query) :
  leaf_node <> [] ->
  accumulate data leaf_node (replicate num_classes zero, zero, [])
  = Ok (averages, weight_sum, log) ->
  leb (fabs weight_sum) tiny = true ->
  leaf_entry num_classes data leaf_node = Ok (averages, log)
  /\ length averages = num_classes.
Proof.
  intros Hne Hacc Htiny. unfold leaf_entry.
  destruct leaf_node as [|sample leaf_node]; [congruence|].
  rewrite Hacc. bind_step. rewrite Htiny. split; [reflexivity|].
  apply accumulate_length in Hacc. rewrite length_replicate in Hacc.
  exact Hacc.
Qed.

(** The loop of lines 119-121 divides every entry by [weight_sum]. *)
Lemma normalize_map_steps (weight_sum : double) (averages : list double)
    (k : nat) :
  k <= length averages ->
  for_range k
    (fun cls averages =>
       match averages !! cls with
       | None => Raise undefined_behaviour
       | Some a => Ok (<[cls := (a / weight_sum)%double]> averages)
       end)
    averages
  = Ok (((fun a => (a / weight_sum)%double) <$> take k averages)
        ++ drop k averages).
Proof.
  induction k as [|k IH]; intros Hk.
  - rewrite take_0, drop_0. reflexivity.
  - rewrite for_range_S, IH by lia. bind_step.
    destruct (lookup_lt_is_Some_2 averages k) as [a Ha]; [lia|].
    rewrite lookup_app_r by (rewrite length_fmap, length_take; lia).
    rewrite length_fmap, length_take, Nat.min_l, Nat.sub_diag by lia.
    rewrite (drop_S averages a k Ha). simpl.
    rewrite insert_app_r_alt by (rewrite length_fmap, length_take; lia).
    rewrite length_fmap, length_take, Nat.min_l, Nat.sub_diag by lia.
    rewrite (take_S_r averages k a Ha), fmap_app, <- app_assoc.
    reflexivity.
Qed.

Lemma normalize_map (num_classes : nat) (weight_sum : double)
    (averages : list double) :
  length averages = num_classes ->
  normalize num_classes weight_sum averages
  = Ok ((fun a => (a / weight_sum)%double) <$> averages).
Proof.
  intros Hlen. unfold normalize.
  rewrite normalize_map_steps by lia.
  rewrite take_ge, drop_ge, app_nil_r by lia. reflexivity.
Qed.

(** A leaf with samples and a total weight above [1e-16] in absolute
    value holds its [num_classes] accumulated weights, each divided by the
    total. *)
Lemma regular_leaf_entry (num_classes : nat) (data : Data)
    (leaf_node : list nat) (averages : list double) (weight_sum : double)
    (log : list query) :
  leaf_node <> [] ->
  accumulate data leaf_node (replicate num_classes zero, zero, [])
  = Ok (averages, weight_sum, log) ->
  leb (fabs weight_sum) tiny = false ->
  leaf_entry num_classes data leaf_node
  = Ok ((fun a => (a / weight_sum)%double) <$> averages, log)
  /\ length averages = num_classes.
Proof.
  intros Hne Hacc Hw. unfold leaf_entry.
  destruct leaf_node as [|sample leaf_node]; [congruence|].
  rewrite Hacc. bind_step. rewrite Hw.
  apply accumulate_length in Hacc. rewrite length_replicate in Hacc.
  rewrite (normalize_map num_classes weight_sum averages Hacc).
  split; [reflexivity | exact Hacc].
Qed.

(** * Further properties *)

Ltac bind_step_in H := unfold mbind, result_bind in H; cbv beta iota in H.

(** ** Loops that fail *)

(** A loop that ends has run its body to the end on every element. *)
Lemma for_each_Ok_inv {A S : Type} (xs : list A) (body : A -> S -> result S)
    (s s' : S) :
  for_each xs body s = Ok s' ->
  forall x, In x xs -> exists s1 s2, body x s1 = Ok s2.
Proof.
  revert s. induction xs as [|y xs IH]; intros s H x Hx; [destruct Hx|].
  simpl in H. apply bind_Ok in H as (s1 & Hy & H).
  destruct Hx as [->|Hx]; [eauto|]. exact (IH s1 H x Hx).
Qed.

(** A loop fails the way its body does. *)
Lemma for_each_fault {A S : Type} (P : fault -> Prop) (xs : list A)
    (body : A -> S -> result S) (s : S) (f : fault) :
  (forall x s1 f1, In x xs -> body x s1 = Raise f1 -> P f1) ->
  for_each xs body s = Raise f -> P f.
Proof.
  revert s. induction xs as [|y xs IH]; intros s Hbody H; [discriminate|].
  simpl in H. destruct (body y s) as [s1|f1] eqn:Hy.
  - apply (IH s1); [|exact H].
    intros x s2 f2 Hx. apply Hbody. right. exact Hx.
  - injection H as <-. apply (Hbody y s f1); [left; reflexivity | exact Hy].
Qed.

Lemma at_Ok {A : Type} (v : list A) (i : nat) (a : A) :
  at_ v i = Ok a -> v !! i = Some a.
Proof.
  unfold at_. destruct (v !! i); [|discriminate].
  intros H. injection H as ->. reflexivity.
Qed.

Lemma get_Ok (pv : PredictionValues) (i cls : nat) (x : double) :
  get pv i cls = Ok x ->
  exists leaf, values pv !! i = Some leaf /\ leaf !! cls = Some x.
Proof.
  unfold get. intros H. apply bind_Ok in H as (leaf & Hleaf & Hx).
  exists leaf. split; apply at_Ok; assumption.
Qed.

(** ** compute_variance: when it returns *)

(** In a group without an empty leaf the loop over the leaves reads
    class [cls] of every leaf. *)
Lemma sum_group_Ok_inv (pv : PredictionValues) (g cls : nat) (ao : double)
    (group : nat) (st st' : double * double) :
  sum_group pv g cls ao group st = Ok st' ->
  forall j leaf,
    j < g -> values pv !! (group * g + j) = Some leaf -> cls < length leaf.
Proof.
  intros H j leaf Hj Hleaf. unfold sum_group, for_range in H.
  destruct (for_each_Ok_inv _ _ _ _ H j) as ([ps gp] & s2 & Hbody);
    [apply in_seq; lia|].
  cbv zeta in Hbody. apply bind_Ok in Hbody as (x & Hx & _).
  apply get_Ok in Hx as (leaf' & Hleaf' & Hx).
  rewrite Hleaf in Hleaf'. injection Hleaf' as <-.
  apply lookup_lt_Some in Hx. exact Hx.
Qed.

Lemma group_body_good (pv : PredictionValues) (g cls : nat) (ao : double)
    (group : nat) (acc : accumulators) :
  group < get_num_nodes pv / g ->
  all_nonempty pv g group = true ->
  group_body pv g cls ao group acc
  = '(ps, group_psi) ←
      sum_group pv g cls ao group (psi_squared acc, zero);
    Ok (mkAcc (num_good_groups acc + one)%double ps
          (psi_grouped_squared acc
           + (group_psi / of_size_t g) * (group_psi / of_size_t g))%double).
Proof.
  intros Hgroup Hgood. unfold group_body.
  rewrite good_group_all_nonempty by exact Hgroup.
  rewrite Hgood. reflexivity.
Qed.

Lemma group_loop_Ok_inv (pv : PredictionValues) (g cls : nat) (ao : double)
    (acc : accumulators) :
  group_loop pv g cls ao = Ok acc ->
  g <> 0
  /\ forall group j leaf,
       group < get_num_nodes pv / g ->
       all_nonempty pv g group = true ->
       j < g ->
       values pv !! (group * g + j) = Some leaf ->
       cls < length leaf.
Proof.
  unfold group_loop. destruct (Nat.eqb g 0) eqn:Hg; [discriminate|].
  apply Nat.eqb_neq in Hg. intros H. split; [exact Hg|].
  intros group j leaf Hgroup Hgood Hj Hleaf.
  destruct (for_each_Ok_inv _ _ _ _ H group) as (acc1 & acc2 & Hbody);
    [apply in_seq; lia|].
  rewrite group_body_good in Hbody by assumption.
  apply bind_Ok in Hbody as ([ps gp] & Hsum & _).
  exact (sum_group_Ok_inv pv g cls ao group _ _ Hsum j leaf Hj Hleaf).
Qed.

Lemma group_loop_total_good (pv : PredictionValues) (g cls : nat)
    (ao : double) :
  g <> 0 ->
  (forall group j leaf,
     group < get_num_nodes pv / g ->
     all_nonempty pv g group = true ->
     j < g ->
     values pv !! (group * g + j) = Some leaf ->
     cls < length leaf) ->
  exists acc, group_loop pv g cls ao = Ok acc.
Proof.
  intros Hg Hcov. unfold group_loop.
  apply Nat.eqb_neq in Hg. rewrite Hg.
  apply for_each_total. intros group acc Hin. apply in_seq in Hin.
  assert (group < get_num_nodes pv / g) as Hgroup by lia.
  destruct (all_nonempty pv g group) eqn:Hgood.
  - rewrite group_body_good by assumption.
    assert (exists st, sum_group pv g cls ao group (psi_squared acc, zero)
                       = Ok st) as [[ps gp] ->]; [|bind_step; eauto].
    apply for_each_total. intros j [ps gp] Hj. apply in_seq in Hj.
    assert (j < g) as Hjg by lia.
    destruct (group_index_lt (get_num_nodes pv) g group j Hgroup Hjg)
      as [Hlt Hle].
    destruct (lookup_lt_is_Some_2 (values pv) (group * g + j))
      as [leaf Hleaf]; [unfold get_num_nodes in *; lia|].
    destruct (get_total pv (group * g + j) cls leaf Hleaf) as [x Hx];
      [exact (Hcov group j leaf Hgroup Hgood Hjg Hleaf)|].
    cbv zeta. rewrite Hx. bind_step. eauto.
  - rewrite group_body_skip by assumption. eauto.
Qed.

(** X1: [compute_variance] returns a vector exactly when there is no
    class, or the group size is not 0, the average vector has an entry
    for every class, and so has every leaf of every group without an empty
    leaf. *)
Theorem compute_variance_returns_iff (num_classes : nat)
    (debias : double -> double -> double -> double)
    (average : list double) (pv : PredictionValues) (g : nat) :
  (exists v, compute_variance num_classes debias average pv g = Ok v)
  <-> variance_defined num_classes average pv g.
Proof.
  rewrite compute_variance_store. split.
  - intros [v Hv]. apply store_loop_spec in Hv as (_ & Hbelow & _).
    rewrite length_replicate in Hbelow.
    destruct num_classes as [|n]; [left; reflexivity|]. right.
    assert (forall cls, cls < S n ->
              cls < length average /\ g <> 0
              /\ forall group j leaf,
                   group < get_num_nodes pv / g ->
                   all_nonempty pv g group = true ->
                   j < g ->
                   values pv !! (group * g + j) = Some leaf ->
                   cls < length leaf) as Hcls.
    { intros cls Hlt. destruct (Hbelow cls Hlt Hlt) as (x & Hx & _).
      apply class_variance_Ok in Hx as (ao & acc & Hao & Hacc & _).
      split; [exact (lookup_lt_Some _ _ _ Hao)|].
      exact (group_loop_Ok_inv pv g cls ao acc Hacc). }
    destruct (Hcls n) as (Havg & Hg & Hcov); [lia|].
    split; [exact Hg|]. split; [lia|].
    intros group j leaf Hgroup Hgood Hj Hleaf.
    specialize (Hcov group j leaf Hgroup Hgood Hj Hleaf). lia.
  - intros [->|(Hg & Havg & Hcov)]; [exists []; reflexivity|].
    apply store_loop_total. intros cls Hcls. unfold class_variance.
    destruct (lookup_lt_is_Some_2 average cls) as [ao Hao]; [lia|].
    rewrite (at_lookup average cls ao Hao). bind_step.
    destruct (group_loop_total_good pv g cls ao Hg) as [acc ->].
    + intros group j leaf Hgroup Hgood Hj Hleaf.
      specialize (Hcov group j leaf Hgroup Hgood Hj Hleaf). lia.
    + bind_step. destruct (variance_terms g acc) as [[vb vt] gn]. eauto.
Qed.

(** A loop that stores [f i] at index [i] fails at the first index at
    which [f] does. *)
Lemma store_loop_first_fault {A : Type} (f : nat -> result A) (n k : nat)
    (e : fault) (v0 : list A) :
  k < n ->
  (forall i, i < k -> exists x, f i = Ok x) ->
  f k = Raise e ->
  store_loop f n v0 = Raise e.
Proof.
  intros Hk Hbelow Hfault.
  destruct (store_loop_total f k v0 Hbelow) as [v Hv].
  unfold store_loop, for_range in *.
  replace n with (k + S (n - S k)) by lia.
  rewrite seq_app, for_each_app, Hv. simpl. rewrite Hfault. reflexivity.
Qed.

(** X2: when the average vector has fewer entries than there are
    classes, the group size is not 0 and every leaf with values has one
    for each class that the average vector covers, [compute_variance]
    computes the entries of those classes and then throws
    [std::out_of_range] from [average.at]. *)
Theorem short_average_throws (num_classes : nat)
    (debias : double -> double -> double -> double)
    (average : list double) (pv : PredictionValues) (g : nat) :
  g <> 0 ->
  length average < num_classes ->
  table_covers (length average) pv ->
  compute_variance num_classes debias average pv g = Raise out_of_range.
Proof.
  intros Hg Hshort Hcov. rewrite compute_variance_store.
  apply (store_loop_first_fault _ num_classes (length average)).
  - exact Hshort.
  - intros cls Hcls. apply class_variance_total; [exact Hg | exact Hcls |].
    apply (table_covers_le (S cls) (length average)); [lia | exact Hcov].
  - unfold class_variance, at_.
    rewrite (lookup_ge_None_2 average (length average)) by lia.
    reflexivity.
Qed.

Lemma short_average_throws_witness :
  compute_variance 2 clamp_debias [decimal 5 10] scenario_table 2
  = Raise out_of_range.
Proof.
  apply short_average_throws.
  - discriminate.
  - simpl. lia.
  - apply (table_covers_le 1 2); [lia | exact scenario_table_covers].
Defined.

(** X3: with a group size of 0, at least one class and an entry of the
    average vector for class 0, [compute_variance] divides a [size_t] by
    0: its behaviour is undefined. *)
Theorem compute_variance_zero_group_size (num_classes : nat)
    (debias : double -> double -> double -> double)
    (average : list double) (pv : PredictionValues) :
  0 < num_classes ->
  0 < length average ->
  compute_variance num_classes debias average pv 0
  = Raise undefined_behaviour.
Proof.
  intros Hn Havg. unfold compute_variance, for_range.
  destruct num_classes as [|n]; [lia|].
  destruct average as [|ao average]; [simpl in Havg; lia|].
  reflexivity.
Qed.

Lemma compute_variance_zero_group_size_witness :
  compute_variance 2 clamp_debias scenario_average scenario_table 0
  = Raise undefined_behaviour.
Proof.
  apply compute_variance_zero_group_size; simpl; lia.
Defined.

(** ** compute_variance: what an entry depends on *)

Lemma group_body_column (pv1 pv2 : PredictionValues) (g cls : nat)
    (ao : double) (group : nat) (acc : accumulators) :
  (forall i, empty pv1 i = empty pv2 i) ->
  (forall i, get pv1 i cls = get pv2 i cls) ->
  group_body pv1 g cls ao group acc = group_body pv2 g cls ao group acc.
Proof.
  intros Hempty Hget. unfold group_body.
  assert (good_group pv1 g group = good_group pv2 g group) as ->.
  { unfold good_group. apply for_range_ext. intros j good _.
    rewrite Hempty. reflexivity. }
  assert (forall st, sum_group pv1 g cls ao group st
                     = sum_group pv2 g cls ao group st) as Hsum.
  { intros st. unfold sum_group. apply for_range_ext. intros j [ps gp] _.
    cbv zeta. rewrite Hget. reflexivity. }
  destruct (good_group pv2 g group) as [[|]|f]; simpl;
    [rewrite Hsum | |]; reflexivity.
Qed.

Lemma class_variance_column
    (debias : double -> double -> double -> double)
    (average1 average2 : list double) (pv1 pv2 : PredictionValues)
    (g cls : nat) :
  average1 !! cls = average2 !! cls ->
  get_num_nodes pv1 = get_num_nodes pv2 ->
  (forall i, empty pv1 i = empty pv2 i) ->
  (forall i, get pv1 i cls = get pv2 i cls) ->
  class_variance debias average1 pv1 g cls
  = class_variance debias average2 pv2 g cls.
Proof.
  intros Havg Hn Hempty Hget. unfold class_variance, at_.
  rewrite Havg. destruct (average2 !! cls) as [ao|]; [|reflexivity].
  bind_step.
  assert (group_loop pv1 g cls ao = group_loop pv2 g cls ao) as ->;
    [|reflexivity].
  unfold group_loop. rewrite Hn.
  destruct (Nat.eqb g 0); [reflexivity|].
  apply for_range_ext. intros group acc _.
  apply group_body_column; assumption.
Qed.

(** X4: the entry of a class in the vector that [compute_variance]
    returns is computed from the entry of that class in the average
    vector, from which leaves are empty, and from the values of that
    class in the leaves: two calls that agree on these return the same
    entry for the class, whatever the other classes hold. *)
Theorem variance_entry_by_class (num_classes : nat)
    (debias : double -> double -> double -> double)
    (average1 average2 : list double) (pv1 pv2 : PredictionValues)
    (g cls : nat) (v1 v2 : list double) :
  cls < num_classes ->
  average1 !! cls = average2 !! cls ->
  get_num_nodes pv1 = get_num_nodes pv2 ->
  (forall i, empty pv1 i = empty pv2 i) ->
  (forall i, get pv1 i cls = get pv2 i cls) ->
  compute_variance num_classes debias average1 pv1 g = Ok v1 ->
  compute_variance num_classes debias average2 pv2 g = Ok v2 ->
  v1 !! cls = v2 !! cls.
Proof.
  intros Hcls Havg Hn Hempty Hget H1 H2.
  rewrite compute_variance_store in H1, H2.
  apply store_loop_spec in H1 as (_ & H1 & _).
  apply store_loop_spec in H2 as (_ & H2 & _).
  rewrite length_replicate in H1, H2.
  destruct (H1 cls Hcls Hcls) as (x1 & Hx1 & ->).
  destruct (H2 cls Hcls Hcls) as (x2 & Hx2 & ->).
  rewrite (class_variance_column debias average1 average2 pv1 pv2 g cls
             Havg Hn Hempty Hget) in Hx1.
  congruence.
Qed.

Lemma variance_entry_by_class_witness :
  exists v1 v2,
    compute_variance 2 clamp_debias scenario_average scenario_table 2 = Ok v1
    /\ compute_variance 2 clamp_debias [decimal 5 10; zero]
         scenario_table_alt 2 = Ok v2
    /\ v1 !! 0 = v2 !! 0.
Proof.
  destruct (compute_variance 2 clamp_debias scenario_average scenario_table 2)
    as [v1|f1] eqn:H1; [|vm_compute in H1; discriminate].
  destruct (compute_variance 2 clamp_debias [decimal 5 10; zero]
              scenario_table_alt 2)
    as [v2|f2] eqn:H2; [|vm_compute in H2; discriminate].
  exists v1, v2. split; [reflexivity|]. split; [reflexivity|].
  apply (variance_entry_by_class 2 clamp_debias scenario_average
           [decimal 5 10; zero] scenario_table scenario_table_alt 2 0 v1 v2).
  - lia.
  - reflexivity.
  - reflexivity.
  - intros i. do 4 (destruct i as [|i]; [reflexivity|]). reflexivity.
  - intros i. do 4 (destruct i as [|i]; [reflexivity|]). reflexivity.
  - exact H1.
  - exact H2.
Defined.

(** ** compute_variance: the count of good groups *)

Lemma good_groups_counted (pv : PredictionValues) (g cls : nat) (ao : double)
    (groups : list nat) (acc acc' : accumulators) :
  (forall group, In group groups ->
     group < get_num_nodes pv / g /\ all_nonempty pv g group = true) ->
  for_each groups (group_body pv g cls ao) acc = Ok acc' ->
  num_good_groups acc'
  = Nat.iter (length groups) (fun n => (n + one)%double)
      (num_good_groups acc).
Proof.
  revert acc. induction groups as [|group groups IH]; intros acc Hgood H.
  - injection H as <-. reflexivity.
  - simpl in H. apply bind_Ok in H as (acc1 & Hbody & H).
    destruct (Hgood group) as [Hgroup Hall]; [left; reflexivity|].
    rewrite group_body_good in Hbody by assumption.
    apply bind_Ok in Hbody as ([ps gp] & _ & Hacc1).
    injection Hacc1 as <-.
    rewrite (IH _ (fun x Hx => Hgood x (or_intror Hx)) H).
    simpl length. rewrite Nat.iter_succ_r. reflexivity.
Qed.

(** X5: when the loop over the groups ends, the count of good groups
    that [debias] receives is 1.0 added to 0 once for every group without
    an empty leaf; it is the same for every class and every average. *)
Theorem good_group_count (pv : PredictionValues) (g cls : nat) (ao : double)
    (acc : accumulators) :
  group_loop pv g cls ao = Ok acc ->
  num_good_groups acc
  = Nat.iter (count_good pv g) (fun n => (n + one)%double) zero.
Proof.
  intros H. unfold group_loop in H.
  destruct (Nat.eqb g 0) eqn:Hg; [discriminate|].
  unfold for_range in H.
  rewrite (for_each_filter (all_nonempty pv g)) in H.
  - apply good_groups_counted in H; [exact H|].
    intros group Hin. apply filter_In in Hin as [Hin Hall].
    apply in_seq in Hin. split; [lia | exact Hall].
  - intros group acc1 Hin Hbad. apply in_seq in Hin.
    apply group_body_skip; [lia | exact Hbad].
Qed.

Lemma good_group_count_witness :
  exists acc,
    group_loop gappy_table 2 0 (decimal 5 10) = Ok acc
    /\ num_good_groups acc = one.
Proof.
  destruct (group_loop gappy_table 2 0 (decimal 5 10)) as [acc|f] eqn:H;
    [|vm_compute in H; discriminate].
  exists acc. split; [reflexivity|].
  rewrite (good_group_count gappy_table 2 0 (decimal 5 10) acc H).
  vm_compute. reflexivity.
Defined.

(** ** precompute_prediction_values: the loop over the samples *)

Lemma accumulate_Ok_labels (data : Data) (leaf_node : list nat)
    (averages : list double) (weight_sum : double) (log : list query)
    (st : list double * double * list query) :
  accumulate data leaf_node (averages, weight_sum, log) = Ok st ->
  forall sample, In sample leaf_node ->
    get_outcome data sample < length averages.
Proof.
  revert averages weight_sum log.
  induction leaf_node as [|s leaf_node IH]; intros averages w log H sample Hin;
    [destruct Hin|].
  rewrite accumulate_cons in H.
  destruct (averages !! get_outcome data s) as [a|] eqn:Ha; [|discriminate].
  destruct Hin as [->|Hin]; [exact (lookup_lt_Some _ _ _ Ha)|].
  specialize (IH _ _ _ H sample Hin). rewrite length_insert in IH. exact IH.
Qed.

Lemma accumulate_fault (data : Data) (leaf_node : list nat)
    (st : list double * double * list query) (f : fault) :
  accumulate data leaf_node st = Raise f -> f = undefined_behaviour.
Proof.
  unfold accumulate. intros H.
  eapply (for_each_fault (fun f' => f' = undefined_behaviour)); [|exact H].
  clear. intros sample [[averages w] log] f _ H. cbv beta iota zeta in H.
  destruct (averages !! get_outcome data sample); [discriminate|].
  injection H as <-. reflexivity.
Qed.

Lemma normalize_fault (num_classes : nat) (weight_sum : double)
    (averages : list double) (f : fault) :
  normalize num_classes weight_sum averages = Raise f ->
  f = undefined_behaviour.
Proof.
  unfold normalize, for_range. intros H.
  eapply (for_each_fault (fun f' => f' = undefined_behaviour)); [|exact H].
  clear. intros cls averages f _ H. cbv beta in H.
  destruct (averages !! cls); [discriminate|].
  injection H as <-. reflexivity.
Qed.

(** The loop over the samples appends three calls for each sample. *)
Lemma accumulate_calls (data : Data) (leaf_node : list nat)
    (averages : list double) (weight_sum : double) (log : list query)
    (averages' : list double) (weight_sum' : double) (log' : list query) :
  accumulate data leaf_node (averages, weight_sum, log)
  = Ok (averages', weight_sum', log') ->
  log' = log ++ flat_map sample_calls leaf_node.
Proof.
  revert averages weight_sum log.
  induction leaf_node as [|s leaf_node IH]; intros averages w log H.
  - unfold accumulate in H. simpl in H. injection H as _ _ <-.
    simpl. rewrite app_nil_r. reflexivity.
  - rewrite accumulate_cons in H.
    destruct (averages !! get_outcome data s) as [a|]; [|discriminate].
    rewrite (IH _ _ _ H). simpl. rewrite <- app_assoc. reflexivity.
Qed.

(** The loop over the samples adds the weight of each sample to the
    total and to the entry of its label. *)
Lemma accumulate_sums (data : Data) (leaf_node : list nat)
    (averages : list double) (weight_sum : double) (log : list query)
    (averages' : list double) (weight_sum' : double) (log' : list query) :
  accumulate data leaf_node (averages, weight_sum, log)
  = Ok (averages', weight_sum', log') ->
  weight_sum' = foldl add weight_sum (get_weight data <$> leaf_node)
  /\ forall cls a,
       averages !! cls = Some a ->
       averages' !! cls
       = Some (foldl add a
                 (get_weight data
                    <$> List.filter
                          (fun sample => Nat.eqb (get_outcome data sample) cls)
                          leaf_node)).
Proof.
  revert averages weight_sum log.
  induction leaf_node as [|s leaf_node IH]; intros averages w log H.
  - unfold accumulate in H. simpl in H. injection H as <- <- _.
    split; [reflexivity|]. intros cls a Ha. exact Ha.
  - rewrite accumulate_cons in H.
    destruct (averages !! get_outcome data s) as [a0|] eqn:Ha0;
      [|discriminate].
    destruct (IH _ _ _ H) as [Hw Hav]. split; [exact Hw|].
    intros cls a Ha. simpl List.filter.
    destruct (Nat.eqb (get_outcome data s) cls) eqn:Hcls.
    + apply Nat.eqb_eq in Hcls. subst cls.
      rewrite Ha0 in Ha. injection Ha as ->.
      apply Hav. apply list_lookup_insert_eq.
      exact (lookup_lt_Some _ _ _ Ha0).
    + apply Nat.eqb_neq in Hcls.
      apply Hav. rewrite list_lookup_insert_ne by exact Hcls. exact Ha.
Qed.

(** ** precompute_prediction_values: the entry of a leaf *)

Lemma leaf_entry_Ok_labels (num_classes : nat) (data : Data)
    (leaf_node : list nat) (entry : list double * list query) :
  leaf_entry num_classes data leaf_node = Ok entry ->
  forall sample, In sample leaf_node ->
    get_outcome data sample < num_classes.
Proof.
  intros H sample Hin. unfold leaf_entry in H.
  destruct leaf_node as [|s leaf_node]; [destruct Hin|].
  apply bind_Ok in H as (st & Hacc & _). destruct st as [[av w] q].
  pose proof (accumulate_Ok_labels _ _ _ _ _ _ Hacc sample Hin) as Hlt.
  rewrite length_replicate in Hlt. exact Hlt.
Qed.

Lemma leaf_entry_fault (num_classes : nat) (data : Data)
    (leaf_node : list nat) (f : fault) :
  leaf_entry num_classes data leaf_node = Raise f ->
  f = undefined_behaviour.
Proof.
  unfold leaf_entry. destruct leaf_node as [|s leaf_node]; [discriminate|].
  destruct (accumulate data (s :: leaf_node) _) as [[[av w] q]|fa] eqn:Hacc;
    bind_step.
  - destruct (leb (fabs w) tiny); [discriminate|].
    destruct (normalize num_classes w av) as [av'|fn] eqn:Hn; bind_step;
      [discriminate|].
    intros H. injection H as <-. exact (normalize_fault _ _ _ _ Hn).
  - intros H. injection H as <-. exact (accumulate_fault _ _ _ _ Hacc).
Qed.

Lemma leaf_entry_calls (num_classes : nat) (data : Data)
    (leaf_node : list nat) (entry : list double) (queries : list query) :
  leaf_entry num_classes data leaf_node = Ok (entry, queries) ->
  queries = flat_map sample_calls leaf_node.
Proof.
  unfold leaf_entry. destruct leaf_node as [|s leaf_node].
  - intros H. injection H as _ <-. reflexivity.
  - intros H. apply bind_Ok in H as ([[av w] q] & Hacc & H).
    apply accumulate_calls in Hacc. rewrite app_nil_l in Hacc. subst q.
    destruct (leb (fabs w) tiny).
    + injection H as _ <-. reflexivity.
    + apply bind_Ok in H as (av' & _ & H). injection H as _ <-. reflexivity.
Qed.

(** The vector of accumulated weights, entry by entry. *)
Lemma accumulated_weights (num_classes : nat) (data : Data)
    (leaf_node : list nat) (averages : list double) (weight_sum : double)
    (log : list query) :
  accumulate data leaf_node (replicate num_classes zero, zero, [])
  = Ok (averages, weight_sum, log) ->
  weight_sum = total_weight data leaf_node
  /\ averages = class_weight data leaf_node <$> seq 0 num_classes.
Proof.
  intros H. pose proof (accumulate_length _ _ _ _ _ _ _ _ H) as Hlen.
  rewrite length_replicate in Hlen.
  apply accumulate_sums in H as [Hw Hav]. split; [exact Hw|].
  apply list_eq. intros cls. rewrite list_lookup_fmap.
  destruct (decide (cls < num_classes)) as [Hlt|Hge].
  - rewrite (Hav cls zero) by (apply lookup_replicate_2; exact Hlt).
    rewrite lookup_seq_lt by exact Hlt. reflexivity.
  - rewrite (lookup_ge_None_2 averages) by lia.
    rewrite lookup_seq_ge by lia. reflexivity.
Qed.

Lemma leaf_entry_vector (num_classes : nat) (data : Data)
    (leaf_node : list nat) (entry : list double) (queries : list query) :
  leaf_node <> [] ->
  leaf_entry num_classes data leaf_node = Ok (entry, queries) ->
  entry = leaf_vector num_classes data leaf_node.
Proof.
  intros Hne H. unfold leaf_entry in H.
  destruct leaf_node as [|s leaf_node]; [congruence|].
  apply bind_Ok in H as ([[av w] q] & Hacc & H).
  pose proof (accumulate_length _ _ _ _ _ _ _ _ Hacc) as Hlen.
  rewrite length_replicate in Hlen.
  apply accumulated_weights in Hacc as [-> ->].
  unfold leaf_vector. cbv zeta.
  destruct (leb (fabs (total_weight data (s :: leaf_node))) tiny).
  - injection H as <- _. reflexivity.
  - rewrite normalize_map in H by exact Hlen. bind_step_in H.
    injection H as <- _. rewrite <- list_fmap_compose. reflexivity.
Qed.

(** ** precompute_prediction_values: the table *)

Lemma precompute_Ok_log (num_classes : nat) (leaf_samples : list (list nat))
    (data : Data) (pv : PredictionValues) :
  precompute_prediction_values num_classes leaf_samples data = Ok pv
  <-> exists log,
        precompute_prediction_values_log num_classes leaf_samples data
        = Ok (pv, log).
Proof.
  unfold precompute_prediction_values. split.
  - intros H. apply bind_Ok in H as ([pv' log] & Hlog & H).
    injection H as <-. eauto.
  - intros [log ->]. reflexivity.
Qed.

Lemma precompute_entries (num_classes : nat) (leaf_samples : list (list nat))
    (data : Data) (pv : PredictionValues) (log : list query) :
  precompute_prediction_values_log num_classes leaf_samples data
  = Ok (pv, log) ->
  exists entries : list (list double * list query),
    Forall2 (fun leaf_node entry =>
               leaf_entry num_classes data leaf_node = Ok entry)
      leaf_samples entries
    /\ pv = mkPredictionValues entries.*1 num_classes
    /\ log = concat entries.*2.
Proof.
  intros H. unfold precompute_prediction_values_log in H.
  apply bind_Ok in H as ([values log'] & Hloop & H). injection H as <- <-.
  apply leaf_loop_spec in Hloop as (entries & Hall & -> & ->); [|lia].
  rewrite take_ge in Hall by lia. rewrite Nat.sub_diag, app_nil_r.
  exists entries. auto.
Qed.

Lemma entries_closed_form (num_classes : nat) (data : Data)
    (leaf_samples : list (list nat))
    (entries : list (list double * list query)) :
  Forall2 (fun leaf_node entry =>
             leaf_entry num_classes data leaf_node = Ok entry)
    leaf_samples entries ->
  entries.*1 = leaf_value num_classes data <$> leaf_samples
  /\ concat entries.*2 = flat_map sample_calls (concat leaf_samples).
Proof.
  induction 1 as [|leaf_node [entry queries] leaf_samples entries Hentry _ IH].
  - split; reflexivity.
  - destruct IH as [IH1 IH2]. rewrite !fmap_cons. cbn [fst snd concat].
    rewrite IH1, IH2, flat_map_app.
    rewrite (leaf_entry_calls _ _ _ _ _ Hentry). split; [|reflexivity].
    f_equal. destruct leaf_node as [|s leaf_node].
    + simpl in Hentry. injection Hentry as <- _. reflexivity.
    + apply (leaf_entry_vector num_classes data (s :: leaf_node) entry
               queries); [discriminate | exact Hentry].
Qed.

Lemma precompute_closed_form (num_classes : nat)
    (leaf_samples : list (list nat)) (data : Data) (pv : PredictionValues)
    (log : list query) :
  precompute_prediction_values_log num_classes leaf_samples data
  = Ok (pv, log) ->
  pv = mkPredictionValues (leaf_value num_classes data <$> leaf_samples)
         num_classes
  /\ log = flat_map sample_calls (concat leaf_samples).
Proof.
  intros H. apply precompute_entries in H as (entries & Hall & -> & ->).
  apply entries_closed_form in Hall as [-> ->]. split; reflexivity.
Qed.

Lemma precompute_Ok_labels (num_classes : nat)
    (leaf_samples : list (list nat)) (data : Data) (pv : PredictionValues)
    (log : list query) :
  precompute_prediction_values_log num_classes leaf_samples data
  = Ok (pv, log) ->
  labels_in_range num_classes data leaf_samples.
Proof.
  intros H leaf_node sample Hleaf Hsample.
  apply precompute_entries in H as (entries & Hall & _).
  apply list_elem_of_In, list_elem_of_lookup in Hleaf as [i Hi].
  destruct (Forall2_lookup_l _ _ _ i leaf_node Hall Hi) as (entry & _ & He).
  exact (leaf_entry_Ok_labels num_classes data leaf_node entry He sample
           Hsample).
Qed.

Lemma precompute_total (num_classes : nat) (leaf_samples : list (list nat))
    (data : Data) :
  labels_in_range num_classes data leaf_samples ->
  exists pv log,
    precompute_prediction_values_log num_classes leaf_samples data
    = Ok (pv, log).
Proof.
  intros Hlabels.
  destruct (leaf_loop_total num_classes leaf_samples data
              (length leaf_samples) Hlabels)
    as [[values log] Hloop]; [lia|].
  unfold precompute_prediction_values_log. rewrite Hloop.
  bind_step. eauto.
Qed.



(** X7: in a call that returns, the data accessor is asked, for every
    sample of every leaf in the order of the input, for the outcome once
    and then for the weight twice, and for nothing else. *)
Theorem precompute_calls (num_classes : nat) (leaf_samples : list (list nat))
    (data : Data) (pv : PredictionValues) (log : list query) :
  precompute_prediction_values_log num_classes leaf_samples data
  = Ok (pv, log) ->
  log = flat_map sample_calls (concat leaf_samples).
Proof. intros H. exact (proj2 (precompute_closed_form _ _ _ _ _ H)). Qed.

Lemma precompute_calls_witness :
  exists pv log,
    precompute_prediction_values_log 2 unit_leaves unit_data = Ok (pv, log)
    /\ log = flat_map sample_calls [0; 1; 2; 3].
Proof.
  destruct (precompute_prediction_values_log 2 unit_leaves unit_data)
    as [[pv log]|f] eqn:H; [|vm_compute in H; discriminate].
  exists pv, log. split; [reflexivity|].
  exact (precompute_calls 2 unit_leaves unit_data pv log H).
Defined.

(** X8: the result depends on the data accessor only through the samples
    of the leaves: two accessors that give these samples the same outcome
    and weight give the same table, the same calls and the same
    failures. *)
Theorem precompute_reads_leaf_samples_only (num_classes : nat)
    (leaf_samples : list (list nat)) (data1 data2 : Data) :
  (forall leaf_node sample,
     In leaf_node leaf_samples -> In sample leaf_node ->
     get_outcome data1 sample = get_outcome data2 sample
     /\ get_weight data1 sample = get_weight data2 sample) ->
  precompute_prediction_values_log num_classes leaf_samples data1
  = precompute_prediction_values_log num_classes leaf_samples data2.
Proof.
  intros Hagree. unfold precompute_prediction_values_log. cbv zeta.
  assert (for_range (length leaf_samples)
            (leaf_body num_classes leaf_samples data1)
            (replicate (length leaf_samples) [], [])
          = for_range (length leaf_samples)
              (leaf_body num_classes leaf_samples data2)
              (replicate (length leaf_samples) [], [])) as ->;
    [|reflexivity].
  apply for_range_ext. intros i [values log] Hi. unfold leaf_body.
  destruct (lookup_lt_is_Some_2 leaf_samples i Hi) as [leaf_node Hleaf].
  rewrite (at_lookup _ _ _ Hleaf). bind_step.
  assert (forall st, accumulate data1 leaf_node st
                     = accumulate data2 leaf_node st) as Hacc.
  { intros st. unfold accumulate. apply for_each_ext.
    intros sample [[av w] q] Hin.
    destruct (Hagree leaf_node sample) as [-> ->];
      [|exact Hin|reflexivity].
    apply list_elem_of_In, list_elem_of_lookup. eauto. }
  destruct leaf_node as [|s leaf_node]; [reflexivity|].
  destruct (values !! i) as [averages|]; [|reflexivity].
  cbv zeta. rewrite Hacc. reflexivity.
Qed.

Lemma precompute_reads_leaf_samples_only_witness :
  precompute_prediction_values_log 2 unit_leaves unit_data
  = precompute_prediction_values_log 2 unit_leaves unit_data_alt.
Proof.
  apply precompute_reads_leaf_samples_only.
  intros leaf_node sample Hleaf Hsample. split; [reflexivity|].
  simpl in Hleaf.
  destruct Hleaf as [<-|[<-|[<-|[]]]]; simpl in Hsample;
    repeat (destruct Hsample as [<-|Hsample]; [reflexivity|]);
    destruct Hsample.
Defined.

Lemma leaf_vector_length (num_classes : nat) (data : Data)
    (leaf_node : list nat) :
  length (leaf_vector num_classes data leaf_node) = num_classes.
Proof. unfold leaf_vector. rewrite length_fmap, length_seq. reflexivity. Qed.

Lemma precompute_table (num_classes : nat) (leaf_samples : list (list nat))
    (data : Data) (pv : PredictionValues) :
  precompute_prediction_values num_classes leaf_samples data = Ok pv ->
  pv = mkPredictionValues (leaf_value num_classes data <$> leaf_samples)
         num_classes
  /\ labels_in_range num_classes data leaf_samples.
Proof.
  intros H. apply precompute_Ok_log in H as [log H]. split.
  - exact (proj1 (precompute_closed_form _ _ _ _ _ H)).
  - exact (precompute_Ok_labels _ _ _ _ _ H).
Qed.

(** X9: in a returned table a leaf is flagged empty exactly when it has
    no samples; the total weight of its samples plays no part. *)
Theorem leaf_flagged_empty_iff (num_classes : nat)
    (leaf_samples : list (list nat)) (data : Data) (pv : PredictionValues)
    (i : nat) (leaf_node : list nat) :
  precompute_prediction_values num_classes leaf_samples data = Ok pv ->
  leaf_samples !! i = Some leaf_node ->
  empty pv i = Ok true <-> leaf_node = [].
Proof.
  intros H Hleaf. apply precompute_table in H as [-> Hlabels].
  unfold empty, at_. simpl values.
  rewrite list_lookup_fmap, Hleaf. simpl.
  destruct leaf_node as [|s leaf_node]; [split; reflexivity|].
  assert (0 < num_classes) as Hn.
  { assert (get_outcome data s < num_classes); [|lia].
    apply (Hlabels (s :: leaf_node) s); [|left; reflexivity].
    apply list_elem_of_In, list_elem_of_lookup. eauto. }
  pose proof (leaf_vector_length num_classes data (s :: leaf_node)) as Hlen.
  unfold leaf_value.
  destruct (leaf_vector num_classes data (s :: leaf_node));
    [simpl in Hlen; lia|].
  split; discriminate.
Qed.

Lemma leaf_flagged_empty_iff_witness :
  exists pv,
    precompute_prediction_values 2 unit_leaves unit_data = Ok pv
    /\ empty pv 1 = Ok true.
Proof.
  destruct (precompute_prediction_values 2 unit_leaves unit_data)
    as [pv|f] eqn:H; [|vm_compute in H; discriminate].
  exists pv. split; [reflexivity|].
  apply (leaf_flagged_empty_iff 2 unit_leaves unit_data pv 1 [] H);
    reflexivity.
Defined.

(** X10: a returned table holds, for each leaf in the order of the
    input, no vector if the leaf has no samples and otherwise a vector of
    [num_classes] entries: the entry of a class is the sum, from the left,
    of the weights of the samples of the leaf with that label, divided by
    the sum, from the left, of the weights of all its samples unless that
    sum is at most [1e-16] in absolute value. *)
Theorem precompute_table_contents (num_classes : nat)
    (leaf_samples : list (list nat)) (data : Data) (pv : PredictionValues) :
  precompute_prediction_values num_classes leaf_samples data = Ok pv ->
  pv = mkPredictionValues (leaf_value num_classes data <$> leaf_samples)
         num_classes.
Proof. intros H. exact (proj1 (precompute_table _ _ _ _ H)). Qed.

Lemma precompute_table_contents_witness :
  exists pv,
    precompute_prediction_values 2 unit_leaves unit_data = Ok pv
    /\ pv = mkPredictionValues (leaf_value 2 unit_data <$> unit_leaves) 2.
Proof.
  destruct (precompute_prediction_values 2 unit_leaves unit_data)
    as [pv|f] eqn:H; [|vm_compute in H; discriminate].
  exists pv. split; [reflexivity|].
  exact (precompute_table_contents 2 unit_leaves unit_data pv H).
Defined.

Lemma precompute_table_covers (num_classes : nat)
    (leaf_samples : list (list nat)) (data : Data) :
  table_covers num_classes
    (mkPredictionValues (leaf_value num_classes data <$> leaf_samples)
       num_classes).
Proof.
  unfold table_covers. simpl values. apply Forall_fmap, Forall_forall.
  intros leaf_node _. simpl. destruct leaf_node as [|s leaf_node].
  - left. reflexivity.
  - right. unfold leaf_value. rewrite leaf_vector_length. lia.
Qed.

(** X11: [compute_variance] accepts every table that
    [precompute_prediction_values] returns for the same number of
    classes: with a group size other than 0 and an average vector with an
    entry for every class it throws nothing and returns [num_classes]
    entries. *)
Theorem compute_variance_on_precomputed (num_classes : nat)
    (debias : double -> double -> double -> double)
    (leaf_samples : list (list nat)) (data : Data) (pv : PredictionValues)
    (average : list double) (g : nat) :
  precompute_prediction_values num_classes leaf_samples data = Ok pv ->
  g <> 0 ->
  num_classes <= length average ->
  exists v,
    compute_variance num_classes debias average pv g = Ok v
    /\ length v = num_classes.
Proof.
  intros H Hg Havg. apply precompute_table in H as [-> _].
  rewrite compute_variance_store.
  destruct (store_loop_total
              (class_variance debias average
                 (mkPredictionValues
                    (leaf_value num_classes data <$> leaf_samples)
                    num_classes) g)
              num_classes (replicate num_classes zero)) as [v Hv].
  - intros cls Hcls. apply class_variance_total; [exact Hg | lia |].
    apply (table_covers_le (S cls) num_classes); [lia|].
    apply precompute_table_covers.
  - exists v. split; [exact Hv|].
    apply store_loop_spec in Hv as (Hlen & _).
    rewrite length_replicate in Hlen. exact Hlen.
Qed.

Lemma compute_variance_on_precomputed_witness :
  exists pv v,
    precompute_prediction_values 2 unit_leaves unit_data = Ok pv
    /\ compute_variance 2 clamp_debias scenario_average pv 2 = Ok v
    /\ length v = 2.
Proof.
  destruct (precompute_prediction_values 2 unit_leaves unit_data)
    as [pv|f] eqn:H; [|vm_compute in H; discriminate].
  destruct (compute_variance_on_precomputed 2 clamp_debias unit_leaves
              unit_data pv scenario_average 2 H) as (v & Hv & Hlen).
  - discriminate.
  - simpl. lia.
  - exists pv, v. auto.
Defined.

Lemma labels_in_range_app (num_classes : nat) (data : Data)
    (leaves1 leaves2 : list (list nat)) :
  labels_in_range num_classes data leaves1 ->
  labels_in_range num_classes data leaves2 ->
  labels_in_range num_classes data (leaves1 ++ leaves2).
Proof.
  intros H1 H2 leaf_node sample Hleaf Hsample.
  apply in_app_or in Hleaf as [Hleaf|Hleaf]; eauto.
Qed.

(** X12: the table of two lists of leaves, one after the other, is the
    table of the first followed by the table of the second. *)
Theorem precompute_app (num_classes : nat)
    (leaves1 leaves2 : list (list nat)) (data : Data)
    (pv1 pv2 : PredictionValues) :
  precompute_prediction_values num_classes leaves1 data = Ok pv1 ->
  precompute_prediction_values num_classes leaves2 data = Ok pv2 ->
  precompute_prediction_values num_classes (leaves1 ++ leaves2) data
  = Ok (mkPredictionValues (values pv1 ++ values pv2) num_classes).
Proof.
  intros H1 H2.
  apply precompute_table in H1 as [-> Hl1].
  apply precompute_table in H2 as [-> Hl2].
  destruct (precompute_total num_classes (leaves1 ++ leaves2) data
              (labels_in_range_app _ _ _ _ Hl1 Hl2)) as (pv & log & H).
  pose proof (proj1 (precompute_closed_form _ _ _ _ _ H)) as ->.
  unfold precompute_prediction_values. rewrite H. bind_step.
  simpl values. rewrite fmap_app. reflexivity.
Qed.

Lemma precompute_app_witness :
  exists pv1 pv2,
    precompute_prediction_values 2 unit_leaves unit_data = Ok pv1
    /\ precompute_prediction_values 2 [[4; 5]] unit_data = Ok pv2
    /\ precompute_prediction_values 2 (unit_leaves ++ [[4; 5]]) unit_data
       = Ok (mkPredictionValues (values pv1 ++ values pv2) 2).
Proof.
  destruct (precompute_prediction_values 2 unit_leaves unit_data)
    as [pv1|f] eqn:H1; [|vm_compute in H1; discriminate].
  destruct (precompute_prediction_values 2 [[4; 5]] unit_data)
    as [pv2|f] eqn:H2; [|vm_compute in H2; discriminate].
  exists pv1, pv2. split; [reflexivity|]. split; [reflexivity|].
  exact (precompute_app 2 unit_leaves [[4; 5]] unit_data pv1 pv2 H1 H2).
Defined.

(** ** precompute_prediction_values: a weight that is NaN *)

Lemma add_nan_r (x : double) : (x + nan)%double = nan.
Proof. destruct x; reflexivity. Qed.

Lemma div_nan_r (x : double) : (x / nan)%double = nan.
Proof. destruct x; reflexivity. Qed.

Lemma foldl_add_from_nan (ws : list double) : foldl add nan ws = nan.
Proof. induction ws as [|w ws IH]; [reflexivity | exact IH]. Qed.

Lemma foldl_add_nan (a : double) (ws : list double) :
  In nan ws -> foldl add a ws = nan.
Proof.
  revert a. induction ws as [|w ws IH]; intros a Hin; [destruct Hin|].
  simpl. destruct Hin as [->|Hin].
  - rewrite add_nan_r. apply foldl_add_from_nan.
  - apply IH. exact Hin.
Qed.

(** X13: a leaf with a sample whose weight is NaN is neither flagged
    empty nor caught by the test of the total weight: in a returned table
    every entry of its vector is NaN. *)
Theorem nan_weight_poisons_leaf (num_classes : nat)
    (leaf_samples : list (list nat)) (data : Data) (pv : PredictionValues)
    (i : nat) (leaf_node : list nat) (sample : nat) :
  precompute_prediction_values num_classes leaf_samples data = Ok pv ->
  leaf_samples !! i = Some leaf_node ->
  In sample leaf_node ->
  get_weight data sample = nan ->
  values pv !! i = Some (replicate num_classes nan).
Proof.
  intros H Hleaf Hin Hnan. apply precompute_table in H as [-> _].
  simpl values. rewrite list_lookup_fmap, Hleaf. simpl. f_equal.
  assert (total_weight data leaf_node = nan) as Hw.
  { unfold total_weight. apply foldl_add_nan.
    rewrite <- Hnan. apply in_map. exact Hin. }
  destruct leaf_node as [|s leaf_node]; [destruct Hin|].
  unfold leaf_value, leaf_vector. cbv zeta. rewrite Hw.
  change (leb (fabs nan) tiny) with false. cbv iota.
  replace (replicate num_classes nan)
    with (replicate (length (seq 0 num_classes)) nan)
    by (rewrite length_seq; reflexivity).
  apply const_fmap.
  intros j cls _. apply div_nan_r.
Qed.

Lemma nan_weight_poisons_leaf_witness :
  exists pv,
    precompute_prediction_values 2 unit_leaves nan_data = Ok pv
    /\ values pv !! 0 = Some [nan; nan].
Proof.
  destruct (precompute_prediction_values 2 unit_leaves nan_data)
    as [pv|f] eqn:H; [|vm_compute in H; discriminate].
  exists pv. split; [reflexivity|].
  apply (nan_weight_poisons_leaf 2 unit_leaves nan_data pv 0 [0; 1; 2] 1 H).
  - reflexivity.
  - simpl. auto.
  - reflexivity.
Defined.

(** ** compute_variance: a group with an empty leaf can be taken out *)

Lemma empty_agree_at (pv1 pv2 : PredictionValues) (i1 i2 : nat) :
  values pv1 !! i1 = values pv2 !! i2 -> empty pv1 i1 = empty pv2 i2.
Proof. unfold empty, at_. intros ->. reflexivity. Qed.

Lemma get_agree_at (pv1 pv2 : PredictionValues) (i1 i2 cls : nat) :
  values pv1 !! i1 = values pv2 !! i2 -> get pv1 i1 cls = get pv2 i2 cls.
Proof. unfold get, at_. intros ->. reflexivity. Qed.

Lemma group_body_shift (pv1 pv2 : PredictionValues) (g cls : nat)
    (ao : double) (group1 group2 : nat) (acc : accumulators) :
  (forall j, j < g ->
     values pv1 !! (group1 * g + j) = values pv2 !! (group2 * g + j)) ->
  group_body pv1 g cls ao group1 acc = group_body pv2 g cls ao group2 acc.
Proof.
  intros H. unfold group_body.
  assert (good_group pv1 g group1 = good_group pv2 g group2) as ->.
  { unfold good_group. apply for_range_ext. intros j good Hj.
    rewrite (empty_agree_at pv1 pv2 _ _ (H j Hj)). reflexivity. }
  destruct (good_group pv2 g group2) as [good|f]; simpl; [|reflexivity].
  destruct good; simpl; [|reflexivity].
  assert (sum_group pv1 g cls ao group1 (psi_squared acc, zero)
          = sum_group pv2 g cls ao group2 (psi_squared acc, zero)) as ->;
    [|reflexivity].
  unfold sum_group. apply for_range_ext. intros j [ps gp] Hj.
  cbv zeta. rewrite (get_agree_at pv1 pv2 _ _ cls (H j Hj)). reflexivity.
Qed.

Lemma for_each_seq_shift {S : Type} (body1 body2 : nat -> S -> result S)
    (a b : nat) (s : S) :
  (forall k s', a <= k < a + b -> body1 (Datatypes.S k) s' = body2 k s') ->
  for_each (seq (Datatypes.S a) b) body1 s = for_each (seq a b) body2 s.
Proof.
  revert a s. induction b as [|b IH]; intros a s H; [reflexivity|].
  simpl. rewrite (H a s) by lia.
  destruct (body2 a s) as [s'|f]; simpl; [|reflexivity].
  apply IH. intros k s'' Hk. apply H. lia.
Qed.

Lemma group_loop_without_bad_group (g cls : nat) (ao : double)
    (before bad after : list (list double)) (nt a : nat) :
  length before = a * g ->
  length bad = g ->
  In [] bad ->
  group_loop (mkPredictionValues (before ++ bad ++ after) nt) g cls ao
  = group_loop (mkPredictionValues (before ++ after) nt) g cls ao.
Proof.
  intros Hbefore Hbad Hin.
  assert (g <> 0) as Hg by (destruct bad; [destruct Hin | simpl in Hbad; lia]).
  set (pv1 := mkPredictionValues (before ++ bad ++ after) nt).
  set (pv2 := mkPredictionValues (before ++ after) nt).
  set (b := length after / g).
  assert (get_num_nodes pv1 / g = a + 1 + b) as Hn1.
  { unfold get_num_nodes, pv1. simpl values. rewrite !length_app.
    replace (length before + (length bad + length after))
      with ((a + 1) * g + length after) by lia.
    rewrite Nat.div_add_l by exact Hg. reflexivity. }
  assert (get_num_nodes pv2 / g = a + b) as Hn2.
  { unfold get_num_nodes, pv2. simpl values. rewrite length_app, Hbefore.
    rewrite Nat.div_add_l by exact Hg. reflexivity. }
  unfold group_loop, for_range. rewrite Hn1, Hn2.
  destruct (Nat.eqb g 0); [reflexivity|].
  replace (a + 1 + b) with (a + (1 + b)) by lia.
  rewrite !seq_app, !for_each_app. simpl seq.
  assert (for_each (seq 0 a) (group_body pv1 g cls ao) acc0
          = for_each (seq 0 a) (group_body pv2 g cls ao) acc0) as ->.
  { apply for_each_ext. intros group acc Hgroup. apply in_seq in Hgroup.
    apply group_body_shift. intros j Hj. unfold pv1, pv2. simpl values.
    rewrite !lookup_app_l by nia. reflexivity. }
  destruct (for_each (seq 0 a) (group_body pv2 g cls ao) acc0)
    as [acc|f]; simpl; [|reflexivity].
  rewrite (group_body_skip pv1 g cls ao a acc).
  - simpl. rewrite Nat.add_1_r. apply for_each_seq_shift. intros k acc' Hk.
    apply group_body_shift. intros j Hj. unfold pv1, pv2. simpl values.
    rewrite !lookup_app_r by nia. f_equal. nia.
  - rewrite Hn1. lia.
  - apply list_elem_of_In, list_elem_of_lookup in Hin as [j Hj].
    apply (all_nonempty_false pv1 g a j).
    + rewrite <- Hbad. exact (lookup_lt_Some _ _ _ Hj).
    + unfold pv1. simpl values.
      rewrite lookup_app_r by lia.
      replace (a * g + j - length before) with j by lia.
      rewrite lookup_app_l by exact (lookup_lt_Some _ _ _ Hj). exact Hj.
Qed.

(** X14: taking a whole group that holds an empty leaf out of the table
    changes nothing: the groups after it move up and the result is the
    same. *)
Theorem bad_group_removable (num_classes : nat)
    (debias : double -> double -> double -> double)
    (average : list double) (g : nat)
    (before bad after : list (list double)) (nt a : nat) :
  length before = a * g ->
  length bad = g ->
  In [] bad ->
  compute_variance num_classes debias average
    (mkPredictionValues (before ++ bad ++ after) nt) g
  = compute_variance num_classes debias average
      (mkPredictionValues (before ++ after) nt) g.
Proof.
  intros Hbefore Hbad Hin. unfold compute_variance.
  apply for_range_ext. intros cls v _. unfold class_variance.
  destruct (at_ average cls) as [ao|f]; simpl; [|reflexivity].
  rewrite (group_loop_without_bad_group g cls ao before bad after nt a
             Hbefore Hbad Hin).
  reflexivity.
Qed.

Lemma bad_group_removable_witness :
  compute_variance 2 clamp_debias scenario_average gappy_table 2
  = compute_variance 2 clamp_debias scenario_average
      (mkPredictionValues
         [[decimal 3 10; decimal 7 10]; [decimal 7 10; decimal 3 10];
          [decimal 1 10; decimal 9 10]] 2) 2.
Proof.
  apply (bad_group_removable 2 clamp_debias scenario_average 2 []
           [[decimal 2 10; decimal 8 10]; []]
           [[decimal 3 10; decimal 7 10]; [decimal 7 10; decimal 3 10];
            [decimal 1 10; decimal 9 10]] 2 0).
  - reflexivity.
  - reflexivity.
  - simpl. auto.
Defined.

(** ** compute_variance: groups of one leaf *)

Lemma div_by_zero_not_finite (x : double) :
  is_finite (x / of_size_t 0)%double = false.
Proof. destruct x as [s|s| |s m e]; reflexivity. Qed.

(** X15: with a group size of 1 the divisor [ci_group_size - 1] of
    [group_noise] is 0: whatever the loop over the groups has accumulated,
    the group noise that [debias] receives is an infinity or NaN, never a
    finite number. *)
Theorem single_leaf_groups_noise (acc : accumulators) :
  is_finite (variance_terms 1 acc).2 = false.
Proof.
  unfold variance_terms. cbn [fst snd]. change (1 - 1) with 0.
  apply div_by_zero_not_finite.
Qed.
